(** * Proof-of-Reading: evidence capture, rubric scoring and skim flags

    A shallow embedding of the script block of
    [src/lib/proofofreading.svelte] and the properties its specification
    states about it.

    Conventions of the embedding.
    - A JavaScript string is a [string]; a character stands for the UTF-16
      code unit of the same number (U+0000 to U+00FF).  The reading passage
      and the sample answers of the source are plain ASCII.
    - A JavaScript [number] that holds a count, an offset or a length is an
      integer ([nat], or [Z] where the source uses the sentinel [-1]).
    - A JavaScript [number] that holds a score is a member of a type with
      the operations of the interface [Number] below.  The interface has
      two instances: [Q], exact rational arithmetic, over which the general
      statements are proved, and [float], IEEE 754 binary64 as JavaScript
      runs it, over which the graders are evaluated on every learner record.
    - [Set<string>] is a [gset string].
    - An optional property ([flags?: string]) is an [option]; a property
      holding [undefined] and an absent property are both [None].
    - The graders assign fields of the record they are given and return
      it; here they return the updated record.  The handlers and the
      reactive blocks of the component are functions from the state before
      to the state after. *)

From Stdlib Require Import Ascii String DecimalString DecimalNat ZArith QArith Qround Qminmax Lia Lqa.
From Stdlib Require Import PrimFloat FloatOps SpecFloat Uint63.
From stdpp Require Import base decidable option list strings gmap.

Local Open Scope string_scope.

(** ** Characters and strings *)

Definition code (c : ascii) : N := N_of_ascii c.

Definition between (lo hi : N) (c : ascii) : bool :=
  ((lo <=? code c)%N && (code c <=? hi)%N)%bool.

(** [String.prototype.toLowerCase] on one code unit: [A-Z], and the
    Latin-1 capitals U+00C0 to U+00DE without the multiplication sign. *)
Definition toLowerCase_char (c : ascii) : ascii :=
  if (between 65 90 c
      || (between 192 222 c && negb (code c =? 215)%N))%bool
  then ascii_of_N (code c + 32)
  else c.

(** The class [\s] of a JavaScript regular expression, which is also the
    set that [String.prototype.trim] strips. *)
Definition is_space (c : ascii) : bool :=
  (between 9 13 c || (code c =? 32)%N || (code c =? 160)%N)%bool.

(** The class [[a-z0-9]]. *)
Definition is_word (c : ascii) : bool :=
  (between 97 122 c || between 48 57 c)%bool.

(** The class [[.!?]]. *)
Definition is_sentence_mark (c : ascii) : bool :=
  ((code c =? 46)%N || (code c =? 33)%N || (code c =? 63)%N)%bool.

Fixpoint string_map (f : ascii -> ascii) (s : string) : string :=
  match s with
  | EmptyString => EmptyString
  | String c s' => String (f c) (string_map f s')
  end.

Fixpoint string_count (p : ascii -> bool) (s : string) : nat :=
  match s with
  | EmptyString => 0
  | String c s' => (if p c then 1 else 0) + string_count p s'
  end.

Fixpoint string_forall (p : ascii -> bool) (s : string) : bool :=
  match s with
  | EmptyString => true
  | String c s' => (p c && string_forall p s')%bool
  end.

Definition toLowerCase (s : string) : string := string_map toLowerCase_char s.

(** [s.replace(/[^a-z0-9\s]/g, ' ')]. *)
Definition replace_non_word (s : string) : string :=
  string_map (fun c => if (is_word c || is_space c)%bool then c else " "%char) s.

(** [s.split(/\s+/)]: the pieces between the maximal runs of white space,
    the empty pieces at both ends included.  [piece] is the piece read so
    far, [in_run] tells that the previous character was white space. *)
Fixpoint split_from (piece : string) (in_run : bool) (s : string) : list string :=
  match s with
  | EmptyString => [piece]
  | String c s' =>
      if is_space c
      then if in_run then split_from "" true s'
           else piece :: split_from "" true s'
      else split_from (piece ++ String c "") false s'
  end.

Definition split_spaces (s : string) : list string := split_from "" false s.

(** [Boolean(s)] for a string: the empty string is falsy. *)
Definition truthy (s : string) : bool :=
  match s with EmptyString => false | String _ _ => true end.

(** Truthiness of an optional string property, as in [r.flags ? .. : ..]. *)
Definition truthy_opt (o : option string) : bool :=
  match o with Some s => truthy s | None => false end.

(** Truthiness of an optional boolean property, as in [r.flagsDemo ? .. : ..]. *)
Definition truthy_flag (o : option bool) : bool :=
  match o with Some b => b | None => false end.

(** [function tokenize(s)]. *)
Definition tokenize (s : string) : list string :=
  filter (fun t => truthy t = true) (split_spaces (replace_non_word (toLowerCase s))).

(** [s.trim()], by what it removes at each end. *)
Fixpoint trimStart (s : string) : string :=
  match s with
  | EmptyString => EmptyString
  | String c s' => if is_space c then trimStart s' else s
  end.

Fixpoint trimEnd (s : string) : string :=
  match s with
  | EmptyString => EmptyString
  | String c s' =>
      match trimEnd s' with
      | EmptyString => if is_space c then EmptyString else String c EmptyString
      | t => String c t
      end
  end.

Definition trim (s : string) : string := trimEnd (trimStart s).

(** [s.slice(a, b)] for [0 <= a <= b]. *)
Definition slice (s : string) (a b : nat) : string := substring a (b - a) s.

(** [x || 1] for a count. *)
Definition or_one (n : nat) : nat :=
  match n with O => 1 | S _ => n end.

(** ** The interface of a JavaScript number that holds a score *)

Class Number (num : Type) : Type := {
  of_Z : Z -> num;
  add : num -> num -> num;
  sub : num -> num -> num;
  mul : num -> num -> num;
  div : num -> num -> num;
  Math_min : num -> num -> num;
  Math_max : num -> num -> num;
  Math_round : num -> num;
  gt : num -> num -> bool
}.

Declare Scope js_scope.
Delimit Scope js_scope with js.
Infix "+" := add : js_scope.
Infix "-" := sub : js_scope.
Infix "*" := mul : js_scope.
Infix "/" := div : js_scope.

(** The decimal literal [m E-k]: [decimal 25 2] is [0.25].  Both [m] and
    [10^k] are small integers, so in binary64 the quotient is the double
    nearest to the decimal, which is the value of the literal. *)
Definition decimal {num : Type} `{!Number num} (m : Z) (k : nat) : num :=
  (of_Z m / of_Z (10 ^ Z.of_nat k))%js.

Definition of_nat {num : Type} `{!Number num} (n : nat) : num := of_Z (Z.of_nat n).

(** *** Exact rational arithmetic *)

Definition Q_round (x : Q) : Q := inject_Z (Qfloor (x + (1 # 2))).

#[export] Instance Q_Number : Number Q := {|
  of_Z := inject_Z;
  add := Qplus;
  sub := Qminus;
  mul := Qmult;
  div := Qdiv;
  Math_min := Qmin;
  Math_max := Qmax;
  Math_round := Q_round;
  gt := fun x y => negb (Qle_bool x y)
|}.

(** *** IEEE 754 binary64, the arithmetic JavaScript runs *)

Module F64.
Definition of_Z (z : Z) : float :=
  if (z <? 0)%Z then PrimFloat.opp (of_uint63 (Uint63.of_Z (- z)))
  else of_uint63 (Uint63.of_Z z).

(** The rational a finite double denotes. *)
Definition value (x : float) : option Q :=
  match Prim2SF x with
  | S754_zero _ => Some 0%Q
  | S754_finite s m e =>
      let n := if s then Z.neg m else Z.pos m in
      Some (if (0 <=? e)%Z then inject_Z (n * 2 ^ e)
            else (n # Z.to_pos (2 ^ (- e))))
  | _ => None
  end.

(** The integer a double holds, when it holds one. *)
Definition to_Z (x : float) : option Z :=
  match value x with
  | Some q =>
      let z := Qfloor q in
      if Qeq_bool q (inject_Z z) then Some z else None
  | None => None
  end.

(** [Math.min]: a NaN operand gives NaN, and [-0] is below [+0]. *)
Definition min (x y : float) : float :=
  if (is_nan x || is_nan y)%bool then nan
  else if PrimFloat.ltb x y then x
  else if PrimFloat.ltb y x then y
  else if get_sign x then x else y.

(** [Math.max]: a NaN operand gives NaN, and [+0] is above [-0]. *)
Definition max (x y : float) : float :=
  if (is_nan x || is_nan y)%bool then nan
  else if PrimFloat.ltb x y then y
  else if PrimFloat.ltb y x then x
  else if get_sign x then y else x.

(** [Math.round]: the integer nearest to [x], a tie going up; NaN, the
    infinities, the zeros and the doubles that are integers already are
    returned as they are, and a result of zero keeps the sign of [x]. *)
Definition round (x : float) : float :=
  match Prim2SF x, value x with
  | S754_finite s m e, Some q =>
      if (0 <=? e)%Z then x
      else
        let z := Qfloor (q + (1 # 2)) in
        if (z =? 0)%Z then (if s then neg_zero else zero) else of_Z z
  | _, _ => x
  end.

(** [x <= y] for two finite doubles, by the rationals they denote. *)
Definition le (x y : float) : bool :=
  match value x, value y with
  | Some p, Some q => Qle_bool p q
  | _, _ => false
  end.
End F64.

#[export] Instance F64_Number : Number float := {|
  of_Z := F64.of_Z;
  add := PrimFloat.add;
  sub := PrimFloat.sub;
  mul := PrimFloat.mul;
  div := PrimFloat.div;
  Math_min := F64.min;
  Math_max := F64.max;
  Math_round := F64.round;
  gt := fun x y => PrimFloat.ltb y x
|}.

(** ** Lexical similarity and fluency *)

(** The counts [inter] and [union] of [function jaccard(a, b)]. *)
Definition overlap (a b : string) : nat * nat :=
  let A : gset string := list_to_set (tokenize a) in
  let B : gset string := list_to_set (tokenize b) in
  let inter := length (filter (fun x => x ∈ B) (elements A)) in
  let union :=
    or_one (size (list_to_set (elements A ++ elements B) : gset string)) in
  (inter, union).

Section Similarity.
Context {num : Type} `{!Number num}.

(** [function jaccard(a, b)]: [return inter / union]. *)
Definition jaccard (a b : string) : num :=
  let '(inter, union) := overlap a b in
  (of_nat inter / of_nat union)%js.

(** [function fluencyProxy(ans)]. *)
Definition fluencyProxy (ans : string) : num :=
  let len := String.length ans in
  let sentences := or_one (string_count is_sentence_mark ans) in
  Math_min (of_Z 1) ((of_nat len / of_Z 200) * (of_nat sentences / of_Z 2))%js.

(** What [fluencyProxy] returns for a text of [len] characters of which
    [marks] are sentence marks: it reads nothing else of the text. *)
Definition fluency_at (len marks : nat) : num :=
  Math_min (of_Z 1) ((of_nat len / of_Z 200) * (of_nat (or_one marks) / of_Z 2))%js.
End Similarity.

(** In binary64, one character more or one sentence mark more does not
    lower the fluency of a text of at most [n] characters, of which at most
    all are sentence marks. *)
Definition fluency_steps (n : nat) : bool :=
  forallb
    (fun len =>
       forallb
         (fun marks =>
            (F64.le (fluency_at len marks) (fluency_at (S len) marks)
             && F64.le (fluency_at len marks) (fluency_at len (S marks)))%bool)
         (seq 0 (S len)))
    (seq 0 (S n)).

(** ** The teacher's table: learner records and the two graders *)

Inductive Quality := Strong | Medium | Weak.

#[export] Instance Quality_eq_dec : EqDecision Quality.
Proof. solve_decision. Defined.

Module Rubric.
Record t {num : Type} := mk {
  completeness : num;
  evidence : num;
  relevance : num;
  fluency : num;
  levelAdjust : num;
  total : num
}.
Arguments t : clear implicits.
Arguments mk {num}.
End Rubric.

Module StudentRow.
Record t {num : Type} := mk {
  name : string;
  time : string;
  tasks : string;
  quality : Quality;
  flags : option string;
  flagsDemo : option bool;
  score : option num;
  rubric : option (Rubric.t num);
  feedback : option string
}.
Arguments t : clear implicits.
Arguments mk {num}.

(** [{ ...r, flags: f, flagsDemo: d }]. *)
Definition with_flags {num} (f : option string) (d : option bool)
    (r : t num) : t num :=
  mk (name r) (time r) (tasks r) (quality r) f d
     (score r) (rubric r) (feedback r).

(** [r.rubric = rb; r.score = sc]. *)
Definition with_grade {num} (rb : Rubric.t num) (sc : num)
    (r : t num) : t num :=
  mk (name r) (time r) (tasks r) (quality r) (flags r) (flagsDemo r)
     (Some sc) (Some rb) (feedback r).

(** [r.feedback = fb]. *)
Definition with_feedback {num} (fb : string) (r : t num) : t num :=
  mk (name r) (time r) (tasks r) (quality r) (flags r) (flagsDemo r)
     (score r) (rubric r) (Some fb).
End StudentRow.

Import StudentRow (name, time, quality, flags, flagsDemo, score, rubric, feedback).

Definition newline : string := String (ascii_of_N 10) "".

(** [let reading], which the source never assigns again. *)
Definition reading : string :=
  "The colony faced dwindling grain reserves after a failed harvest. Councils debated rationing policy. Merchants argued for price ceilings while officials proposed equitable distribution based on household size. Diaries from the period reveal mixed reactions among townspeople, noting both relief and resentment. Implementation of ration books began the following month. Bakers received flour allocations tied to reported demand. Rumors of favoritism spread, particularly concerning officials and their associates. Audits later contradicted some claims."
  ++ newline ++ newline ++
  "Historians point out that rationing systems are often perceived as unfair in the short term but can stabilize markets. The language of official notices emphasized civic duty and mutual sacrifice, while diaries reveal anxiety over scarcity and social standing.".

Definition feedback_high : string :=
  "Strong, on-topic, fluent. Consider citing a specific policy detail from the passage for full credit.".
Definition feedback_mid : string :=
  "Mostly correct. Clarify the rationale for rationing (failed harvest, scarcity) and reference a quoted sentence.".
Definition feedback_low : string :=
  "Off-target or incomplete. Re-read the first paragraph and identify why rationing began; include a short quote as evidence.".

(** The stand-in answer both graders score, chosen by [r.quality]. *)
Definition sampleAnswer (q : Quality) : string :=
  match q with
  | Strong => "Rationing was necessary due to failed harvest and scarce supplies."
  | Medium => "They made ration books to be fair."
  | Weak => "It was about food."
  end.

Section Grading.
Context {num : Type} `{!Number num}.
Local Open Scope js_scope.

(** [function gradeRowLLM(r)]. *)
Definition gradeRowLLM (r : StudentRow.t num) : StudentRow.t num :=
  let baseline :=
    match quality r with
    | Strong => decimal 8 1 | Medium => decimal 6 1 | Weak => decimal 4 1
    end in
  let sampleAnswer := sampleAnswer (quality r) in
  let relevance := jaccard reading sampleAnswer in
  let fluency := fluencyProxy sampleAnswer in
  let evidence :=
    if decide (quality r <> Weak) then decimal 7 1 else decimal 3 1 in
  let completeness := baseline in
  let levelAdjust :=
    if decide (quality r = Weak) then decimal 5 2
    else if decide (quality r = Strong) then decimal (-2) 2
    else of_Z 0 in
  let total :=
    Math_max (of_Z 0)
      (Math_min (of_Z 1)
         (decimal 25 2 * completeness +
          decimal 30 2 * relevance +
          decimal 25 2 * evidence +
          decimal 20 2 * fluency +
          levelAdjust)) in
  let r :=
    StudentRow.with_grade
      (Rubric.mk completeness evidence relevance fluency levelAdjust total)
      (Math_round (total * of_Z 100)) r in
  StudentRow.with_feedback
    (if gt total (decimal 85 2) then feedback_high
     else if gt total (decimal 65 2) then feedback_mid
     else feedback_low) r.

(** [function gradeRow(r)]. *)
Definition gradeRow (r : StudentRow.t num) : StudentRow.t num :=
  let baseline :=
    match quality r with
    | Strong => decimal 8 1 | Medium => decimal 6 1 | Weak => decimal 4 1
    end in
  let sampleAnswer := sampleAnswer (quality r) in
  let relevance := jaccard reading sampleAnswer in
  let fluency := fluencyProxy sampleAnswer in
  let evidence :=
    if decide (quality r <> Weak) then decimal 7 1 else decimal 3 1 in
  let completeness := baseline in
  let flagPenalty := if truthy_opt (flags r) then decimal 1 1 else of_Z 0 in
  let levelAdjust := of_Z 0 in
  let total :=
    Math_max (of_Z 0)
      (Math_min (of_Z 1)
         (decimal 25 2 * completeness + decimal 30 2 * relevance +
          decimal 25 2 * evidence + decimal 20 2 * fluency -
          flagPenalty + levelAdjust)) in
  StudentRow.with_grade
    (Rubric.mk completeness evidence relevance fluency levelAdjust total)
    (Math_round (total * of_Z 100)) r.

(** [function gradeAllLLM()] and [function gradeAll()], on [rows]. *)
Definition gradeAllLLM (rows : list (StudentRow.t num)) := map gradeRowLLM rows.
Definition gradeAll (rows : list (StudentRow.t num)) := map gradeRow rows.

(** [let rows], as the source seeds it. *)
Definition fresh (n t k : string) (q : Quality) : StudentRow.t num :=
  StudentRow.mk n t k q None None None None None.

Definition rows0 : list (StudentRow.t num) :=
  [ fresh "Alice W." "15m" "7/7" Strong;
    fresh "Ben R." "9m" "5/7" Weak;
    fresh "Chris T." "14m" "6/7" Medium ].
End Grading.

(** *** The composite, in the words of the specification

    [clamp(0.25 c + 0.30 r + 0.25 e + 0.20 f + levelAdjust, 0, 1)] over the
    sub-scores of a rubric breakdown; the rule-based grader takes [0.1]
    off the sum for a learner who carries a flag. *)

Section Composite.
Context {num : Type} `{!Number num}.
Local Open Scope js_scope.

Definition clamp (x lo hi : num) : num := Math_max lo (Math_min hi x).

Definition weighted (rb : Rubric.t num) : num :=
  decimal 25 2 * Rubric.completeness rb + decimal 30 2 * Rubric.relevance rb +
  decimal 25 2 * Rubric.evidence rb + decimal 20 2 * Rubric.fluency rb +
  Rubric.levelAdjust rb.

Definition composite (flagged : bool) (rb : Rubric.t num) : num :=
  if flagged then clamp (weighted rb - decimal 1 1) (of_Z 0) (of_Z 1)
  else clamp (weighted rb) (of_Z 0) (of_Z 1).

(** The feedback tiers: above 0.85, above 0.65, and the rest. *)
Definition feedback_tier (total : num) : string :=
  if gt total (decimal 85 2) then feedback_high
  else if gt total (decimal 65 2) then feedback_mid
  else feedback_low.
End Composite.

(** The numbers from 0 to 1. *)
Definition unit_interval (x : Q) : Prop := (0 <= x <= 1)%Q.

(** The score each grader gives by tier, as the evaluation of the graders
    on the reading of the source finds them. *)
Definition rule_points (q : Quality) : Z :=
  match q with Strong => 42 | Medium => 35 | Weak => 18 end.

Definition llm_points (q : Quality) : Z :=
  match q with Strong => 40 | Medium => 35 | Weak => 23 end.

(** ** The skim-flag controller *)

(** What the specification calls a learner's flag state: the label of
    [r.flags] when it is truthy, and whether [r.flagsDemo] marks it as a
    demonstration flag. *)
Inductive Origin := Demo | Persisted.

Definition flag_state {num} (r : StudentRow.t num) : option (string * Origin) :=
  match flags r with
  | Some l =>
      if truthy l
      then Some (l, if truthy_flag (flagsDemo r) then Demo else Persisted)
      else None
  | None => None
  end.

Definition carries_flag {num} (r : StudentRow.t num) : bool :=
  truthy_opt (flags r).

(** A persisted flag: a flag that is not marked as a demonstration. *)
Definition persisted {num} (r : StudentRow.t num) : Prop :=
  carries_flag r = true /\ truthy_flag (flagsDemo r) = false.

(** The learner the first reactive block names. *)
Definition is_exemplar {num} (r : StudentRow.t num) : bool :=
  String.eqb (name r) "Ben R.".

(** The flag state the first reactive block gives a learner. *)
Definition demo_state {num} (r : StudentRow.t num) : option (string * Origin) :=
  if is_exemplar r then Some ("Possible skim", Demo) else None.

(** What a run of the reactive blocks may change of a record [r]: the flag
    and the demonstration mark, and nothing else. *)
Definition same_but_flags {num} (r r' : StudentRow.t num) : Prop :=
  name r' = name r /\ time r' = time r
  /\ StudentRow.tasks r' = StudentRow.tasks r /\ quality r' = quality r
  /\ score r' = score r /\ rubric r' = rubric r /\ feedback r' = feedback r.

(** No learner of the table carries a flag. *)
Definition unflagged {num} (table : list (StudentRow.t num)) : Prop :=
  Forall (fun r => carries_flag r = false) table.

(** How many learners of the table carry a flag. *)
Definition flagged_count {num} (table : list (StudentRow.t num)) : nat :=
  length (filter (fun r => carries_flag r = true) table).

Section Skim.
Context {num : Type}.
Let Row : Type := StudentRow.t num.

(** The first reactive block: [$: if (featureFlags.premium && skimEnabled)]. *)
Definition auto_seed (premium skimEnabled : bool) (rows : list Row) : list Row :=
  if (premium && skimEnabled)%bool then
    if negb (existsb (fun r => truthy_opt (flags r)) rows) then
      map (fun r =>
             if String.eqb (name r) "Ben R."
             then StudentRow.with_flags (Some "Possible skim") (Some true) r
             else r) rows
    else rows
  else rows.

(** The second reactive block: [$: if (!featureFlags.premium || !skimEnabled)]. *)
Definition auto_clear (premium skimEnabled : bool) (rows : list Row) : list Row :=
  if (negb premium || negb skimEnabled)%bool then
    if existsb (fun r => truthy_flag (flagsDemo r)) rows then
      map (fun r =>
             if truthy_flag (flagsDemo r)
             then StudentRow.with_flags None None r
             else r) rows
    else rows
  else rows.

(** One run of the reactive blocks, in the order of the source. *)
Definition reconcile (premium skimEnabled : bool) (rows : list Row) : list Row :=
  auto_clear premium skimEnabled (auto_seed premium skimEnabled rows).

(** [function seedRealFlag(name, label = 'Skim (real)')]. *)
Definition seedRealFlag (n : string) (label : option string)
    (rows : list Row) : list Row :=
  let label := default "Skim (real)" label in
  map (fun r =>
         if String.eqb (name r) n
         then StudentRow.with_flags (Some label) (Some false) r
         else r) rows.

(** [function clearRealFlags()]. *)
Definition clearRealFlags (rows : list Row) : list Row :=
  map (fun r =>
         if truthy_flag (flagsDemo r) then r
         else StudentRow.with_flags None (flagsDemo r) r) rows.

(** The switches and the table, and the assignments to a switch, each
    followed by a run of the reactive blocks. *)
Record Controller := mkController {
  premium : bool;
  skimEnabled : bool;
  rows : list Row
}.

Inductive Toggle :=
| SetPremium (b : bool)
| SetSkimEnabled (b : bool).

Definition toggle (c : Controller) (t : Toggle) : Controller :=
  match t with
  | SetPremium b => mkController b (skimEnabled c) (reconcile b (skimEnabled c) (rows c))
  | SetSkimEnabled b => mkController (premium c) b (reconcile (premium c) b (rows c))
  end.

Definition toggles (c : Controller) (ts : list Toggle) : Controller :=
  fold_left toggle ts c.
End Skim.

Arguments Controller : clear implicits.

(** Three turns of the mode, off and on. *)
Definition three_cycles : list Toggle :=
  [ SetSkimEnabled false; SetSkimEnabled true;
    SetSkimEnabled false; SetSkimEnabled true;
    SetSkimEnabled false; SetSkimEnabled true ].

(** *** Everything that assigns the table

    The two batch graders, the switches, and the two helpers that seed and
    clear a real flag.  Each of them assigns [rows] or a switch, so the
    reactive blocks run after it. *)

Section Table.
Context {num : Type} `{!Number num}.

Inductive TableOp :=
| GradeAll
| GradeAllLLM
| Switch (t : Toggle)
| SeedRealFlag (n : string) (label : option string)
| ClearRealFlags.

Definition assign_rows (c : Controller num) (rows' : list (StudentRow.t num)) :
    Controller num :=
  mkController (premium c) (skimEnabled c)
    (reconcile (premium c) (skimEnabled c) rows').

Definition table_step (c : Controller num) (op : TableOp) : Controller num :=
  match op with
  | GradeAll => assign_rows c (gradeAll (rows c))
  | GradeAllLLM => assign_rows c (gradeAllLLM (rows c))
  | Switch t => toggle c t
  | SeedRealFlag n label => assign_rows c (seedRealFlag n label (rows c))
  | ClearRealFlags => assign_rows c (clearRealFlags (rows c))
  end.

Definition table_run (c : Controller num) (ops : list TableOp) : Controller num :=
  fold_left table_step ops c.

(** The feedback of every row of a table is a function [o] of its tier. *)
Definition tiered (o : Quality -> option string) (table : list (StudentRow.t num)) : Prop :=
  Forall (fun r => feedback r = o (quality r)) table.

(** A learner record as it is created: nothing of a grading in it yet. *)
Definition ungraded (r : StudentRow.t num) : Prop :=
  score r = None /\ rubric r = None /\ feedback r = None.
End Table.

(** ** The reader: the rendered passage, selections, evidence and tasks *)

Module Task.
Inductive kind := highlight | short | vocab.

#[global] Instance kind_eq_dec : EqDecision kind.
Proof. solve_decision. Defined.

Record t := mk {
  id : string;
  type : kind;
  prompt : string;
  done : option bool;
  answer : option string
}.

(** [t.done = b]. *)
Definition with_done (b : bool) (x : t) : t :=
  mk (id x) (type x) (prompt x) (Some b) (answer x).
End Task.

Module Evidence.
Record t := mk {
  id : string;
  text : string;
  start : Z;
  end_ : Z
}.
End Evidence.

(** A node of the page: a text node with its [nodeValue], or an element
    with its [childNodes].  [ref] stands for the identity of the node
    object, which [===] compares. *)
#[warning="-register-all"]
Inductive Node :=
| Text (ref : nat) (nodeValue : string)
| Element (ref : nat) (childNodes : list Node).

(** The text nodes below [n] and [n] itself when it is one, in document
    order. *)
Fixpoint text_nodes (n : Node) : list (nat * string) :=
  match n with
  | Text i v => [(i, v)]
  | Element _ cs => flat_map text_nodes cs
  end.

(** The nodes [document.createTreeWalker(root, NodeFilter.SHOW_TEXT)]
    reaches by [nextNode()]: the text nodes below the root. *)
Definition walker (root : Node) : list (nat * string) :=
  match root with
  | Text _ _ => []
  | Element _ cs => flat_map text_nodes cs
  end.

Fixpoint node_refs (n : Node) : list nat :=
  match n with
  | Text i _ => [i]
  | Element i cs => i :: flat_map node_refs cs
  end.

(** [root.contains(other)]: [other] is [root] or a descendant of it. *)
Definition contains (root : Node) (other : nat) : bool :=
  bool_decide (other ∈ node_refs root).

(** The text of a sequence of text nodes, one after the other. *)
Definition join (nodes : list (nat * string)) : string :=
  fold_right String.append "" (map snd nodes).

(** [root.textContent]. *)
Definition textContent (root : Node) : string := join (text_nodes root).

Record Range := mkRange {
  startContainer : nat;
  startOffset : nat;
  endContainer : nat;
  endOffset : nat;
  commonAncestorContainer : nat
}.

Record Selection := mkSelection {
  ranges : list Range;
  toString : string
}.

Record Reader := mkReader {
  evidence : list Evidence.t;
  tasks : list Task.t
}.

(** The decimal digits of a count, as [String(n)] gives them. *)
Definition decimal_digits (n : nat) : string :=
  NilZero.string_of_uint (Nat.to_uint n).

(** The loop of [onMouseUpCapture] over the nodes the walker still has to
    give; the result is [(startGlobal, endGlobal)]. *)
Fixpoint walk (nodes : list (nat * string)) (range : Range)
    (acc startGlobal endGlobal : Z) : Z * Z :=
  match nodes with
  | [] => (startGlobal, endGlobal)
  | (node, nodeValue) :: nodes' =>
      let startGlobal :=
        if decide (node = startContainer range)
        then (acc + Z.of_nat (startOffset range))%Z
        else startGlobal in
      if decide (node = endContainer range)
      then (startGlobal, (acc + Z.of_nat (endOffset range))%Z)
      else walk nodes' range (acc + Z.of_nat (String.length nodeValue))%Z
             startGlobal endGlobal
  end.

(** [tasks.find((t) => t.type === 'highlight')], then [ht.done = true]. *)
Fixpoint complete_highlight (ts : list Task.t) : list Task.t :=
  match ts with
  | [] => []
  | t :: ts' =>
      if decide (Task.type t = Task.highlight)
      then Task.with_done true t :: ts'
      else t :: complete_highlight ts'
  end.

(** [function onMouseUpCapture()].  [container] is the element with id
    [reading], [selection] is what [window.getSelection?.()] returns.  The
    result is the state of the reader and whether the handler reached
    [selection.removeAllRanges()]. *)
Definition onMouseUpCapture (container : Node) (selection : option Selection)
    (st : Reader) : Reader * bool :=
  match selection with
  | None => (st, false)
  | Some selection =>
      match ranges selection with
      | [] => (st, false)
      | range :: _ =>
          if negb (contains container (commonAncestorContainer range))
          then (st, false)
          else
            let text := toString selection in
            if (negb (truthy text) || Nat.ltb (String.length (trim text)) 3)%bool
            then (st, false)
            else
              let '(startGlobal, endGlobal) :=
                walk (walker container) range 0 (-1) (-1) in
              if ((0 <=? startGlobal)%Z && (startGlobal <? endGlobal)%Z)%bool
              then
                (mkReader
                   (evidence st ++
                    [Evidence.mk
                       ("e" ++ decimal_digits (length (evidence st) + 1))
                       text startGlobal endGlobal])
                   (complete_highlight (tasks st)),
                 true)
              else (st, true)
      end
  end.

(** [function setAnswer(id, val)], on [tasks]: [tasks.find((x) => x.id === id)],
    then [t.answer = val] and [t.done = (val || '').trim().length > 3]. *)
Fixpoint answer_task (id val : string) (ts : list Task.t) : list Task.t :=
  match ts with
  | [] => []
  | t :: ts' =>
      if decide (Task.id t = id)
      then Task.mk (Task.id t) (Task.type t) (Task.prompt t)
             (Some (Nat.ltb 3 (String.length (trim val)))) (Some val) :: ts'
      else t :: answer_task id val ts'
  end.

Definition setAnswer (id val : string) (st : Reader) : Reader :=
  mkReader (evidence st) (answer_task id val (tasks st)).

(** Truthiness of [t.done]. *)
Definition is_done (t : Task.t) : bool :=
  match Task.done t with Some b => b | None => false end.

(** [function percentDone()], on [tasks], in binary64: a rounding error of
    the quotient or of the product can move [Math.round] by a whole point,
    so exact arithmetic is no model of this function.  With no task at all
    the quotient is [0 / 0], which is NaN. *)
Definition percentDone (ts : list Task.t) : float :=
  Math_round
    ((of_nat (length (filter (fun t => is_done t = true) ts))
      / of_nat (length ts)) * of_Z 100)%js.

(** What can be said of the progress [z] shown for [d] tasks done out of
    [n]: a whole number from 0 to 100 that is nearest to the percentage (a
    tie may go either way), 100 when all are done, 0 exactly when none is,
    and with fewer than 200 tasks 100 only when all are done. *)
Definition percent_spec (d n : nat) (z : Z) : Prop :=
  (0 <= z <= 100)%Z
  /\ (2 * Z.abs (Z.of_nat n * z - 100 * Z.of_nat d) <= Z.of_nat n)%Z
  /\ (d = n -> z = 100%Z)
  /\ (z = 0%Z <-> d = 0)
  /\ (z = 100%Z -> n < 200 -> d = n).

#[global] Instance percent_spec_dec d n z : Decision (percent_spec d n z).
Proof. unfold percent_spec. apply _. Defined.

(** [percent_spec] holds of [percentDone] for every count of done tasks
    out of [n] tasks, for every [n] from 1 to [bound]. *)
Definition percent_table (bound : nat) : bool :=
  forallb
    (fun n =>
       forallb
         (fun d =>
            match F64.to_Z (Math_round ((of_nat d / of_nat n) * of_Z 100)%js) with
            | Some z => bool_decide (percent_spec d n z)
            | None => false
            end)
         (seq 0 (S n)))
    (seq 1 bound).

(** [let tasks] and [let evidence], as the source seeds them; the prompts
    are written in ASCII. *)
Definition tasks0 : list Task.t :=
  [ Task.mk "t1" Task.highlight
      "Highlight the sentence where the author explains why rationing was necessary."
      None None;
    Task.mk "t2" Task.short
      "Summarize paragraph 2 in your own words (1-2 sentences)." None None;
    Task.mk "t3" Task.vocab "Define the term ration." None None ].

Definition reader0 : Reader := mkReader [] tasks0.

(** The passage of the worked example of the specification, rendered as
    one text node. *)
Definition passage : Node := Element 0 [Text 1 "The cat sat. The dog ran."].

(** *** What a selection is, on the side of the browser *)

(** The text of a range whose two boundary points lie in text nodes of
    [nodes], the start not after the end: the tail of the start node from
    its offset, every text node in between, and the head of the end node up
    to its offset.  [range_tail] reads on from the node after the start
    node. *)
Fixpoint range_tail (nodes : list (nat * string)) (range : Range) : option string :=
  match nodes with
  | [] => None
  | (node, nodeValue) :: nodes' =>
      if decide (node = endContainer range)
      then Some (substring 0 (endOffset range) nodeValue)
      else option_map (String.append nodeValue) (range_tail nodes' range)
  end.

Fixpoint range_text (nodes : list (nat * string)) (range : Range) : option string :=
  match nodes with
  | [] => None
  | (node, nodeValue) :: nodes' =>
      if decide (node = startContainer range) then
        if decide (node = endContainer range)
        then Some (substring (startOffset range)
                     (endOffset range - startOffset range) nodeValue)
        else option_map
               (String.append
                  (substring (startOffset range)
                     (String.length nodeValue - startOffset range) nodeValue))
               (range_tail nodes' range)
      else if decide (node = endContainer range) then None
      else range_text nodes' range
  end.

(** The boundary offsets of a range do not exceed the length of their
    nodes, and in one node the start offset does not exceed the end
    offset. *)
Definition offsets_in_bounds (nodes : list (nat * string)) (range : Range) : Prop :=
  (forall v, (startContainer range, v) ∈ nodes -> startOffset range <= String.length v)
  /\ (forall v, (endContainer range, v) ∈ nodes -> endOffset range <= String.length v)
  /\ (startContainer range = endContainer range -> startOffset range <= endOffset range).

(** [selection.toString()] for a selection whose ranges lie in the text
    nodes of [nodes]: the texts of its ranges, one after the other.  The
    handler reads the offsets from the first range only. *)
Fixpoint selection_text (nodes : list (nat * string)) (ranges : list Range)
    : option string :=
  match ranges with
  | [] => Some ""
  | range :: ranges' =>
      match range_text nodes range, selection_text nodes ranges' with
      | Some t, Some u => Some (t ++ u)
      | _, _ => None
      end
  end.

(** The node objects of the passage are distinct. *)
Definition distinct_nodes (container : Node) : Prop :=
  NoDup (map fst (walker container)).

(** What the DOM guarantees of the first range of a selection, the one
    [getRangeAt(0)] returns: its offsets lie within their nodes. *)
Definition dom_range (container : Node) (selection : Selection) : Prop :=
  match ranges selection with
  | [] => True
  | range :: _ => offsets_in_bounds (walker container) range
  end.

(** The text of a selection over the passage is the text of its ranges. *)
Definition dom_text (container : Node) (selection : Selection) : Prop :=
  forall t, selection_text (walker container) (ranges selection) = Some t ->
    toString selection = t.

(** A selection of one range, as dragging over the passage makes it. *)
Definition single_range (selection : Selection) : Prop :=
  length (ranges selection) = 1.

(** A property of the selection of an event, if the event has one. *)
Definition on_event (P : Selection -> Prop) (event : option Selection) : Prop :=
  match event with
  | Some selection => P selection
  | None => True
  end.

(** The offset of the boundary point [(ref, off)] in the text of [nodes]:
    the lengths of the nodes before the node [ref], and [off]. *)
Fixpoint position (nodes : list (nat * string)) (ref off : nat) : option nat :=
  match nodes with
  | [] => None
  | (node, nodeValue) :: nodes' =>
      if decide (node = ref) then Some off
      else option_map (Nat.add (String.length nodeValue)) (position nodes' ref off)
  end.

(** The selections the specification lists as silent no-ops: the text
    trims to fewer than three characters, the range lies outside the
    passage, or a boundary node is none of the text nodes of the passage. *)
Definition degenerate (container : Node) (selection : Selection) (range : Range) : Prop :=
  String.length (trim (toString selection)) < 3
  \/ contains container (commonAncestorContainer range) = false
  \/ startContainer range ∉ map fst (walker container)
  \/ endContainer range ∉ map fst (walker container).

(** A run of selection events over one passage. *)
Definition capture_all (container : Node) (events : list (option Selection))
    (st : Reader) : Reader :=
  fold_left (fun st selection => fst (onMouseUpCapture container selection st))
    events st.

(** A span that lies in the text [doc]. *)
Definition span_within (doc : string) (e : Evidence.t) : Prop :=
  (0 <= Evidence.start e)%Z
  /\ (Evidence.start e < Evidence.end_ e)%Z
  /\ (Evidence.end_ e <= Z.of_nat (String.length doc))%Z.

(** What the data model asks of an evidence span over the text [doc]. *)
Definition span_ok (doc : string) (e : Evidence.t) : Prop :=
  (0 <= Evidence.start e)%Z
  /\ (Evidence.start e < Evidence.end_ e)%Z
  /\ (Evidence.end_ e <= Z.of_nat (String.length doc))%Z
  /\ Evidence.text e =
     slice doc (Z.to_nat (Evidence.start e)) (Z.to_nat (Evidence.end_ e)).

(** The first task of type [highlight], the one [tasks.find] returns. *)
Definition find_highlight (ts : list Task.t) : option Task.t :=
  head (filter (fun t => Task.type t = Task.highlight) ts).

(** What marking the highlight task completed means: the first task of
    type [highlight], if there is one, has [done] set to [true], and nothing
    else of the tasks differs. *)
Definition completes (ts ts' : list Task.t) : Prop :=
  match find_highlight ts with
  | None => ts' = ts
  | Some t =>
      exists before after,
        ts = (before ++ t :: after)%list
        /\ Forall (fun u => Task.type u <> Task.highlight) before
        /\ ts' = (before
                  ++ Task.mk (Task.id t) (Task.type t) (Task.prompt t)
                       (Some true) (Task.answer t)
                  :: after)%list
  end.

(** What a capture does to the reader: one span more, the last, numbered
    by the count of spans, holding [text] from [s] to [e], and the highlight
    task completed. *)
Definition captured (text : string) (s e : Z) (st st' : Reader) : Prop :=
  evidence st' =
    (evidence st
     ++ [Evidence.mk ("e" ++ decimal_digits (length (evidence st) + 1)) text s e])%list
  /\ completes (tasks st) (tasks st').

(** The ids of [n] spans in the order of their capture: "e1" to "en". *)
Definition numbered (n : nat) : list string :=
  map (fun k => "e" ++ decimal_digits k) (seq 1 n).

(** The highlight task, if there is one, is done exactly when there is
    evidence. *)
Definition highlight_synced (st : Reader) : Prop :=
  forall t, find_highlight (tasks st) = Some t ->
    (is_done t = true <-> evidence st <> []).

(** The selection a browser delivers when the reader drags over the first
    occurrence of [needle] in the only text node of a one-node passage. *)
Definition select_in (container : Node) (needle : string) : option Selection :=
  match walker container with
  | [(node, nodeValue)] =>
      match index 0 needle nodeValue with
      | Some i =>
          Some (mkSelection
                  [mkRange node i node (i + String.length needle) node]
                  needle)
      | None => None
      end
  | _ => None
  end.

(** * Properties *)

(** ** Lexical similarity *)

Example tokenize_ex :
  tokenize "  The cat's  9 lives!" = ["the"; "cat"; "s"; "9"; "lives"].
Proof. vm_compute. reflexivity. Qed.

Example split_spaces_ex : split_spaces " a  b " = [""; "a"; "b"; ""].
Proof. reflexivity. Qed.

Example jaccard_ex : (jaccard (num := Q) "a b c" "b c d" == 2 # 4)%Q.
Proof. vm_compute. reflexivity. Qed.

Lemma or_one_max n : or_one n = Nat.max 1 n.
Proof. by destruct n as [|[|n]]. Qed.

Lemma or_one_mono n m : n <= m -> or_one n <= or_one m.
Proof. destruct n, m; simpl; lia. Qed.

Lemma filter_all {A} (P : A -> Prop) `{!forall x, Decision (P x)} (l : list A) :
  Forall P l -> filter P l = l.
Proof.
  induction 1 as [|x l Hx _ IH]; [done|].
  by rewrite filter_cons_True, IH.
Qed.

(** The filter of [jaccard] counts the intersection of the two sets. *)
Lemma inter_size (A B : gset string) :
  length (filter (fun x => x ∈ B) (elements A)) = size (A ∩ B).
Proof.
  unfold size, set_size; simpl. apply Permutation_length, NoDup_Permutation.
  - apply NoDup_filter, NoDup_elements.
  - apply NoDup_elements.
  - intros x. rewrite list_elem_of_filter, !elem_of_elements, elem_of_intersection.
    tauto.
Qed.

(** The set built from the two spreads is the union of the two sets. *)
Lemma union_set (A B : gset string) :
  (list_to_set (elements A ++ elements B) : gset string) = A ∪ B.
Proof. by rewrite list_to_set_app_L, !list_to_set_elements_L. Qed.

Lemma overlap_sets (a b : string) :
  let A : gset string := list_to_set (tokenize a) in
  let B : gset string := list_to_set (tokenize b) in
  overlap a b = (size (A ∩ B), Nat.max 1 (size (A ∪ B))).
Proof.
  intros A B. unfold overlap. fold A B.
  by rewrite inter_size, union_set, or_one_max.
Qed.

Lemma tokens_empty (a : string) :
  (list_to_set (tokenize a) : gset string) = ∅ <-> tokenize a = [].
Proof.
  split; [|by intros ->].
  destruct (tokenize a) as [|t ts]; [done|]. intros E.
  assert (t ∈ (∅ : gset string)) as H by (rewrite <- E; apply elem_of_list_to_set; left).
  by apply elem_of_empty in H.
Qed.

Lemma Q_self_ratio n : n <> 0 -> (inject_Z (Z.of_nat n) / inject_Z (Z.of_nat n) == 1)%Q.
Proof.
  intros Hn. apply Qmult_inv_r. intros E. unfold Qeq in E. simpl in E. lia.
Qed.

(** C8 (as amended): [jaccard] divides the size of the intersection of the
    two token sets by the size of their union, which is floored at 1; for
    every string [a] with at least one token [jaccard a a] is 1, and the
    result is 0 when both strings have no token. *)
Theorem jaccard_self (a b : string) :
  let A : gset string := list_to_set (tokenize a) in
  let B : gset string := list_to_set (tokenize b) in
  (jaccard (num := Q) a b
   == inject_Z (Z.of_nat (size (A ∩ B)))
      / inject_Z (Z.of_nat (Nat.max 1 (size (A ∪ B)))))%Q
  /\ (tokenize a <> [] -> (jaccard (num := Q) a a == 1)%Q)
  /\ (tokenize a = [] -> tokenize b = [] -> (jaccard (num := Q) a b == 0)%Q).
Proof.
  intros A B. split; [|split].
  - unfold jaccard. by rewrite overlap_sets.
  - intros Ha. unfold jaccard. rewrite overlap_sets. fold A. cbn [of_nat of_Z div Q_Number].
    rewrite intersection_idemp_L, union_idemp_L.
    assert (size A <> 0) as Hs.
    { intros E. apply size_empty_inv in E. apply Ha, tokens_empty. by apply leibniz_equiv. }
    replace (Nat.max 1 (size A)) with (size A) by lia.
    by apply Q_self_ratio.
  - intros Ha Hb. unfold jaccard, overlap. by rewrite Ha, Hb.
Qed.

Lemma jaccard_self_witness : (jaccard (num := Q) "the cat" "the cat" == 1)%Q.
Proof.
  apply (jaccard_self "the cat" "the cat"). vm_compute. discriminate.
Defined.

(** C8, as stated, fails: a string of punctuation is not empty, has no
    token, and its similarity to itself is 0. *)
Lemma jaccard_self_punctuation :
  "!" <> "" /\ ~ (jaccard (num := Q) "!" "!" == 1)%Q.
Proof. split; [discriminate|]. vm_compute. discriminate. Qed.

(** ** Fluency *)

Lemma fluency_formula (ans : string) :
  fluencyProxy (num := Q) ans =
  Qmin 1 ((inject_Z (Z.of_nat (String.length ans)) / 200)
          * (inject_Z (Z.of_nat (or_one (string_count is_sentence_mark ans))) / 2))%Q.
Proof. reflexivity. Qed.

Lemma nonneg_count (n : nat) : (0 <= inject_Z (Z.of_nat n))%Q.
Proof. unfold Qle; simpl; lia. Qed.

Lemma mono_count (n m : nat) :
  n <= m -> (inject_Z (Z.of_nat n) <= inject_Z (Z.of_nat m))%Q.
Proof. intros H. rewrite <- Zle_Qle. lia. Qed.

(** The same in binary64, for texts of up to 200 characters, the length
    at which the first factor of the formula reaches 1. *)
Lemma string_count_le p (s : string) : string_count p s <= String.length s.
Proof. induction s as [|c s IH]; simpl; [done|]. destruct (p c); lia. Qed.

Lemma fluencyProxy_at {num : Type} `{!Number num} (ans : string) :
  fluencyProxy ans
  = fluency_at (String.length ans) (string_count is_sentence_mark ans).
Proof. reflexivity. Qed.

Lemma fluency_steps_200 : fluency_steps 200 = true.
Proof. vm_cast_no_check (eq_refl true). Qed.

Lemma F64_le_trans x y z :
  F64.le x y = true -> F64.le y z = true -> F64.le x z = true.
Proof.
  unfold F64.le.
  destruct (F64.value x), (F64.value y), (F64.value z); try done.
  rewrite !Qle_bool_iff. apply Qle_trans.
Qed.

Lemma F64_le_refl x y : F64.le x y = true -> F64.le x x = true.
Proof.
  unfold F64.le. destruct (F64.value x), (F64.value y); try done.
  intros _. apply Qle_bool_iff, Qle_refl.
Qed.

Lemma fluency_steps_spec (n len marks : nat) :
  fluency_steps n = true -> marks <= len -> len <= n ->
  F64.le (fluency_at len marks) (fluency_at (S len) marks) = true
  /\ F64.le (fluency_at len marks) (fluency_at len (S marks)) = true.
Proof.
  unfold fluency_steps. intros H Hm Hl.
  rewrite forallb_forall in H.
  assert (In len (seq 0 (S n))) as Il by (apply in_seq; lia).
  specialize (H len Il). rewrite forallb_forall in H.
  assert (In marks (seq 0 (S len))) as Im by (apply in_seq; lia).
  apply andb_true_iff. exact (H marks Im).
Qed.

Lemma fluency_step (len marks : nat) :
  marks <= len -> len <= 200 ->
  F64.le (fluency_at len marks) (fluency_at (S len) marks) = true
  /\ F64.le (fluency_at len marks) (fluency_at len (S marks)) = true.
Proof. exact (fluency_steps_spec 200 len marks fluency_steps_200). Qed.

Lemma fluency_mono_len (marks l1 l2 : nat) :
  l1 <= l2 -> marks <= l1 -> l2 <= 200 ->
  F64.le (fluency_at l1 marks) (fluency_at l2 marks) = true.
Proof.
  induction 1 as [|l2 Hle IH]; intros Hm Hl.
  - by eapply F64_le_refl, fluency_step.
  - eapply F64_le_trans; [apply IH; lia|]. apply fluency_step; lia.
Qed.

Lemma fluency_mono_marks (len m1 m2 : nat) :
  m1 <= m2 -> m2 <= len -> len <= 200 ->
  F64.le (fluency_at len m1) (fluency_at len m2) = true.
Proof.
  induction 1 as [|m2 Hle IH]; intros Hm Hl.
  - by eapply F64_le_refl, fluency_step.
  - eapply F64_le_trans; [apply IH; lia|]. apply fluency_step; lia.
Qed.

(** C9 (as amended): [fluencyProxy] is the minimum of 1 and
    [(len / 200) * (max(1, marks) / 2)]; it never exceeds 1, and it does
    not decrease when the text gets longer and has no fewer sentence marks,
    in exact arithmetic for all texts and in binary64 for the texts of up
    to 200 characters. *)
Theorem fluency_monotone (a b : string) :
  (fluencyProxy (num := Q) a
   == Qmin 1 ((inject_Z (Z.of_nat (String.length a)) / 200)
              * (inject_Z (Z.of_nat (Nat.max 1 (string_count is_sentence_mark a))) / 2)))%Q
  /\ (String.length a <= String.length b ->
      string_count is_sentence_mark a <= string_count is_sentence_mark b ->
      (fluencyProxy (num := Q) a <= fluencyProxy (num := Q) b)%Q)
  /\ (fluencyProxy (num := Q) b <= 1)%Q
  /\ (String.length a <= String.length b -> String.length b <= 200 ->
      string_count is_sentence_mark a <= string_count is_sentence_mark b ->
      F64.le (fluencyProxy a) (fluencyProxy b) = true).
Proof.
  split; [|split; [|split]].
  - rewrite fluency_formula. by rewrite or_one_max.
  - rewrite !fluency_formula.
    intros Hl Hc. apply Q.min_le_compat_l. unfold Qdiv.
    apply Qmult_le_compat_nonneg; split.
    + apply Qmult_le_0_compat; [apply nonneg_count|discriminate].
    + apply Qmult_le_compat_r; [by apply mono_count|discriminate].
    + apply Qmult_le_0_compat; [apply nonneg_count|discriminate].
    + apply Qmult_le_compat_r; [by apply mono_count, or_one_mono|discriminate].
  - rewrite fluency_formula. apply Q.le_min_l.
  - intros Hl Hb Hc. rewrite !fluencyProxy_at.
    pose proof (string_count_le is_sentence_mark a) as Hma.
    pose proof (string_count_le is_sentence_mark b) as Hmb.
    eapply F64_le_trans.
    + by apply (fluency_mono_len _ _ (String.length b)).
    + by apply fluency_mono_marks.
Qed.

Lemma fluency_monotone_witness :
  (fluencyProxy (num := Q) "It was about food."
   <= fluencyProxy (num := Q) "They made ration books to be fair.")%Q
  /\ F64.le (fluencyProxy "It was about food.")
       (fluencyProxy "They made ration books to be fair.") = true.
Proof.
  split;
    apply (fluency_monotone "It was about food." "They made ration books to be fair.");
    vm_compute; lia.
Defined.

(** C9, as stated, fails: a longer text can score lower when it has fewer
    sentence marks, five letters against four full stops, in exact
    arithmetic and in binary64. *)
Lemma fluency_marks_matter :
  String.length "...." < String.length "aaaaa"
  /\ (fluencyProxy (num := Q) "aaaaa" < fluencyProxy (num := Q) "....")%Q
  /\ PrimFloat.ltb (fluencyProxy "aaaaa") (fluencyProxy "....") = true.
Proof.
  split; [simpl; lia|]. split; [vm_compute; reflexivity|].
  vm_compute. reflexivity.
Qed.

(** ** The two graders *)

(** The counts of [jaccard] between the reading and each sample answer. *)
Lemma overlap_reading (q : Quality) :
  overlap reading (sampleAnswer q) =
  match q with
  | Strong => (5, 103)
  | Medium => (3, 102)
  | Weak => (0, 102)
  end.
Proof. destruct q; vm_compute; reflexivity. Qed.

Lemma relevance_of {num : Type} `{!Number num} (q : Quality) :
  jaccard (num := num) reading (sampleAnswer q) =
  match q with
  | Strong => (of_nat 5 / of_nat 103)%js
  | Medium => (of_nat 3 / of_nat 102)%js
  | Weak => (of_nat 0 / of_nat 102)%js
  end.
Proof. unfold jaccard. rewrite overlap_reading. by destruct q. Qed.

Lemma clamp_range (x : Q) : (0 <= clamp x 0 1 <= 1)%Q.
Proof.
  unfold clamp; simpl. split.
  - apply Q.le_max_l.
  - apply Q.max_lub; [discriminate | apply Q.le_min_l].
Qed.

Lemma clamp_Qeq (x y : Q) : (x == y)%Q -> (clamp x 0 1 == clamp y 0 1)%Q.
Proof.
  intros E. unfold clamp; simpl.
  apply Q.max_compat; [reflexivity|]. apply Q.min_compat; [reflexivity|exact E].
Qed.

Lemma composite_range (flagged : bool) (rb : Rubric.t Q) :
  (0 <= composite flagged rb <= 1)%Q.
Proof. unfold composite. destruct flagged; apply clamp_range. Qed.

Lemma Q_round_range (t : Q) :
  (0 <= t <= 1)%Q -> (0 <= Qfloor (t * 100 + (1 # 2)) <= 100)%Z.
Proof.
  intros [H0 H1].
  assert (0 <= t * 100 + (1 # 2))%Q as A by lra.
  assert (t * 100 + (1 # 2) <= 100 + (1 # 2))%Q as B by lra.
  apply Qfloor_resp_le in A, B.
  change (Qfloor 0) with 0%Z in A.
  change (Qfloor (100 + (1 # 2))) with 100%Z in B. lia.
Qed.

(** Every learner record is one of six cases for the graders: three tiers,
    with or without a truthy [flags]. *)
Ltac grade_cases r :=
  destruct r as [? ? ? [] [[|? ?]|] ? ? ? ?];
  unfold gradeRow, gradeRowLLM; cbn [StudentRow.quality StudentRow.flags];
  rewrite relevance_of.

Ltac graded :=
  eexists _, _; split; [reflexivity|]; split; [vm_compute; reflexivity|];
  split; [reflexivity|]; split; [vm_compute; reflexivity| lia].

(** C1: for every learner record both graders store a rubric whose
    [total] is the clamped weighted sum of its own sub-scores (the
    rule-based one less 0.1 for a learner who carries a flag), and a score
    that is [Math.round(total * 100)], an integer from 0 to 100.  This
    holds in exact arithmetic and in binary64; in exact arithmetic the
    rounded composite of any sub-scores whatever is such an integer. *)
Theorem composite_and_score :
  (forall r : StudentRow.t Q,
     (exists rb z,
        rubric (gradeRow r) = Some rb
        /\ (Rubric.total rb == composite (carries_flag r) rb)%Q
        /\ score (gradeRow r) = Some (Math_round (Rubric.total rb * of_Z 100)%js)
        /\ Math_round (Rubric.total rb * of_Z 100)%js = inject_Z z
        /\ (0 <= z <= 100)%Z)
     /\ (exists rb z,
        rubric (gradeRowLLM r) = Some rb
        /\ (Rubric.total rb == composite false rb)%Q
        /\ score (gradeRowLLM r) = Some (Math_round (Rubric.total rb * of_Z 100)%js)
        /\ Math_round (Rubric.total rb * of_Z 100)%js = inject_Z z
        /\ (0 <= z <= 100)%Z))
  /\ (forall r : StudentRow.t float,
     (exists rb z,
        rubric (gradeRow r) = Some rb
        /\ Rubric.total rb = composite (carries_flag r) rb
        /\ score (gradeRow r) = Some (Math_round (Rubric.total rb * of_Z 100)%js)
        /\ F64.to_Z (Math_round (Rubric.total rb * of_Z 100)%js) = Some z
        /\ (0 <= z <= 100)%Z)
     /\ (exists rb z,
        rubric (gradeRowLLM r) = Some rb
        /\ Rubric.total rb = composite false rb
        /\ score (gradeRowLLM r) = Some (Math_round (Rubric.total rb * of_Z 100)%js)
        /\ F64.to_Z (Math_round (Rubric.total rb * of_Z 100)%js) = Some z
        /\ (0 <= z <= 100)%Z))
  /\ (forall (flagged : bool) (rb : Rubric.t Q),
     exists z,
       Math_round (composite flagged rb * of_Z 100)%js = inject_Z z
       /\ (0 <= z <= 100)%Z).
Proof.
  split; [|split].
  - intros r. split.
    + unfold gradeRow.
      set (rel := jaccard reading _). set (fl := fluencyProxy _).
      clearbody rel fl.
      eexists _, _. split; [reflexivity|].
      split; [|split; [reflexivity|split; [reflexivity|]]].
      * cbn [Rubric.total]. unfold composite, carries_flag.
        destruct (truthy_opt (flags r)); apply clamp_Qeq;
          unfold weighted; simpl; ring.
      * apply Q_round_range, clamp_range.
    + unfold gradeRowLLM.
      set (rel := jaccard reading _). set (fl := fluencyProxy _).
      clearbody rel fl.
      eexists _, _. split; [reflexivity|].
      split; [|split; [reflexivity|split; [reflexivity|]]].
      * cbn [Rubric.total]. unfold composite. apply clamp_Qeq;
          unfold weighted; simpl; ring.
      * apply Q_round_range, clamp_range.
  - intros r. split; grade_cases r; graded.
  - intros flagged rb. eexists. split; [reflexivity|].
    apply Q_round_range, composite_range.
Qed.

(** The scores of the three learners of the source, in both arithmetics. *)
Example scores_rule_based :
  map score (gradeAll (num := Q) rows0) = [Some 42%Q; Some 18%Q; Some 35%Q]
  /\ map score (gradeAll (num := float) rows0)
     = [Some 42%float; Some 18%float; Some 35%float].
Proof.
  unfold gradeAll, rows0, fresh. cbn [map]. unfold gradeRow.
  cbn [StudentRow.quality StudentRow.flags]. rewrite !relevance_of.
  split; vm_compute; reflexivity.
Qed.

Example scores_model_assisted :
  map score (gradeAllLLM (num := Q) rows0) = [Some 40%Q; Some 23%Q; Some 35%Q]
  /\ map score (gradeAllLLM (num := float) rows0)
     = [Some 40%float; Some 23%float; Some 35%float].
Proof.
  unfold gradeAllLLM, rows0, fresh. cbn [map]. unfold gradeRowLLM.
  cbn [StudentRow.quality StudentRow.flags]. rewrite !relevance_of.
  split; vm_compute; reflexivity.
Qed.

(** A hypothesis that equates two different numbers. *)
Ltac absurd_number H :=
  first [ vm_compute in H; discriminate H
        | apply (f_equal Prim2SF) in H; vm_compute in H; discriminate H ].

Lemma feedback_tier_cases (t : Q) :
  ((85 # 100 < t)%Q -> feedback_tier t = feedback_high)
  /\ ((65 # 100 < t <= 85 # 100)%Q -> feedback_tier t = feedback_mid)
  /\ ((t <= 65 # 100)%Q -> feedback_tier t = feedback_low).
Proof.
  unfold feedback_tier. cbn [gt Q_Number].
  assert (decimal 85 2 == 85 # 100)%Q as E85 by (vm_compute; reflexivity).
  assert (decimal 65 2 == 65 # 100)%Q as E65 by (vm_compute; reflexivity).
  destruct (Qle_bool t (decimal 85 2)) eqn:H85;
    destruct (Qle_bool t (decimal 65 2)) eqn:H65; cbn [negb];
    try (apply Qle_bool_iff in H85; rewrite E85 in H85);
    try (apply Qle_bool_iff in H65; rewrite E65 in H65);
    try (assert (~ t <= 85 # 100)%Q as N85
           by (rewrite <- E85, <- Qle_bool_iff, H85; discriminate));
    try (assert (~ t <= 65 # 100)%Q as N65
           by (rewrite <- E65, <- Qle_bool_iff, H65; discriminate));
    (split; [|split]); intros; try reflexivity; exfalso; lra.
Qed.

(** C2 (as amended): the two graders derive the same completeness,
    relevance, evidence score and fluency for every learner record, and
    each stores as total the clamped weighted sum of its own sub-scores
    (the rule-based one less 0.1 for a flag) and as score that total times
    100, rounded; so on every record on which the level adjustment, the
    flag penalty counted with it, coincides too, they store the same rubric
    breakdown and the same score, in exact arithmetic and in binary64.
    Only the model-assisted grader writes feedback, for every record the
    string its total selects: the first above 0.85, the second above 0.65,
    the third otherwise.  The rule-based grader leaves the feedback of every
    record as it was. *)
Theorem variants_agree :
  (forall (num : Type) (N : Number num) (r : StudentRow.t num),
     exists rbg rbl,
       rubric (gradeRow r) = Some rbg
       /\ rubric (gradeRowLLM r) = Some rbl
       /\ Rubric.completeness rbg = Rubric.completeness rbl
       /\ Rubric.relevance rbg = Rubric.relevance rbl
       /\ Rubric.evidence rbg = Rubric.evidence rbl
       /\ Rubric.fluency rbg = Rubric.fluency rbl
       /\ score (gradeRow r) = Some (Math_round (Rubric.total rbg * of_Z 100)%js)
       /\ score (gradeRowLLM r) = Some (Math_round (Rubric.total rbl * of_Z 100)%js)
       /\ feedback (gradeRow r) = feedback r
       /\ feedback (gradeRowLLM r) = Some (feedback_tier (Rubric.total rbl)))
  /\ (forall t : Q,
       ((85 # 100 < t)%Q -> feedback_tier t = feedback_high)
       /\ ((65 # 100 < t <= 85 # 100)%Q -> feedback_tier t = feedback_mid)
       /\ ((t <= 65 # 100)%Q -> feedback_tier t = feedback_low))
  /\ (feedback_high <> feedback_mid /\ feedback_mid <> feedback_low
      /\ feedback_high <> feedback_low)
  /\ (forall (r : StudentRow.t Q) rbg rbl,
       rubric (gradeRow r) = Some rbg ->
       rubric (gradeRowLLM r) = Some rbl ->
       (Rubric.total rbg == composite (carries_flag r) rbg)%Q
       /\ (Rubric.total rbl == composite false rbl)%Q
       /\ ((Rubric.evidence rbg == Rubric.evidence rbl)%Q ->
           ((if carries_flag r then (Rubric.levelAdjust rbg - decimal 1 1)%js
             else Rubric.levelAdjust rbg) == Rubric.levelAdjust rbl)%Q ->
           rubric (gradeRow r) = rubric (gradeRowLLM r)
           /\ score (gradeRow r) = score (gradeRowLLM r)))
  /\ (forall (r : StudentRow.t float) rbg rbl,
       rubric (gradeRow r) = Some rbg ->
       rubric (gradeRowLLM r) = Some rbl ->
       Rubric.total rbg = composite (carries_flag r) rbg
       /\ Rubric.total rbl = composite false rbl
       /\ (Rubric.evidence rbg = Rubric.evidence rbl ->
           (if carries_flag r then (Rubric.levelAdjust rbg - decimal 1 1)%js
            else Rubric.levelAdjust rbg) = Rubric.levelAdjust rbl ->
           rubric (gradeRow r) = rubric (gradeRowLLM r)
           /\ score (gradeRow r) = score (gradeRowLLM r))).
Proof.
  split; [|split; [|split; [|split]]].
  - intros num N r. eexists _, _.
    split; [reflexivity|]. split; [reflexivity|]. by repeat split.
  - apply feedback_tier_cases.
  - by repeat split.
  - intros r; grade_cases r; intros rbg rbl [= <-] [= <-];
      (split; [vm_compute; reflexivity|]; split; [vm_compute; reflexivity|]);
      intros He Hl;
      cbn [Rubric.levelAdjust Rubric.evidence carries_flag StudentRow.flags
           truthy_opt truthy] in He, Hl;
      try absurd_number Hl;
      (split; vm_compute; reflexivity).
  - intros r; grade_cases r; intros rbg rbl [= <-] [= <-];
      (split; [vm_compute; reflexivity|]; split; [vm_compute; reflexivity|]);
      intros He Hl;
      cbn [Rubric.levelAdjust Rubric.evidence carries_flag StudentRow.flags
           truthy_opt truthy] in He, Hl;
      try absurd_number Hl;
      (split; vm_compute; reflexivity).
Qed.

Lemma variants_agree_witness :
  let r : StudentRow.t Q := fresh "Chris T." "14m" "6/7" Medium in
  rubric (gradeRow r) = rubric (gradeRowLLM r)
  /\ score (gradeRow r) = score (gradeRowLLM r)
  /\ feedback_tier (num := Q) (9 # 10) = feedback_high.
Proof.
  intros r.
  destruct variants_agree as (_ & Ht & _ & H & _).
  destruct (H r _ _ eq_refl eq_refl) as (_ & _ & Hc).
  destruct Hc as [Hr Hs].
  - vm_compute. reflexivity.
  - vm_compute. reflexivity.
  - split; [exact Hr|]. split; [exact Hs|].
    apply (Ht (9 # 10)). reflexivity.
Defined.

(** C2, as stated, fails: on the fresh record of a Medium learner without
    a flag the two graders derive the same evidence score and the same
    level adjustment, and yet the rule-based grader leaves no feedback
    where the model-assisted one writes a tiered string. *)
Lemma variants_feedback_differs :
  let r : StudentRow.t Q := fresh "Chris T." "14m" "6/7" Medium in
  exists rbg rbl,
    rubric (gradeRow r) = Some rbg
    /\ rubric (gradeRowLLM r) = Some rbl
    /\ (Rubric.evidence rbg == Rubric.evidence rbl)%Q
    /\ carries_flag r = false
    /\ (Rubric.levelAdjust rbg == Rubric.levelAdjust rbl)%Q
    /\ feedback (gradeRow r) = None
    /\ feedback (gradeRowLLM r) = Some feedback_low.
Proof.
  intros r. subst r. unfold gradeRow, gradeRowLLM, fresh.
  cbn [StudentRow.quality StudentRow.flags]. rewrite relevance_of.
  eexists _, _. split; [reflexivity|]. split; [reflexivity|].
  repeat split; vm_compute; reflexivity.
Qed.

(** *** The graders read the tier and the flag, and nothing else *)

Section Noninterference.
Context {num : Type} `{!Number num}.
Implicit Types (r : StudentRow.t num) (table : list (StudentRow.t num)).

Lemma gradeRow_same r1 r2 :
  quality r1 = quality r2 -> carries_flag r1 = carries_flag r2 ->
  rubric (gradeRow r1) = rubric (gradeRow r2)
  /\ score (gradeRow r1) = score (gradeRow r2).
Proof.
  unfold carries_flag, gradeRow. intros -> ->. split; reflexivity.
Qed.

Lemma gradeRowLLM_same r1 r2 :
  quality r1 = quality r2 ->
  rubric (gradeRowLLM r1) = rubric (gradeRowLLM r2)
  /\ score (gradeRowLLM r1) = score (gradeRowLLM r2)
  /\ feedback (gradeRowLLM r1) = feedback (gradeRowLLM r2).
Proof.
  unfold gradeRowLLM. intros ->. repeat split; reflexivity.
Qed.

(** A map that keeps the tier and the feedback of every row keeps the
    table tiered. *)
Lemma tiered_map o (f : StudentRow.t num -> StudentRow.t num) table :
  (forall r, quality (f r) = quality r /\ feedback (f r) = feedback r) ->
  tiered o table -> tiered o (map f table).
Proof.
  intros Hf. unfold tiered.
  induction 1 as [|r table Hr _ IH]; simpl; constructor; [|done].
  destruct (Hf r) as [-> ->]. done.
Qed.

Lemma tiered_auto_seed o p s table :
  tiered o table -> tiered o (auto_seed p s table).
Proof.
  intros H. unfold auto_seed. repeat case_match; try done.
  apply tiered_map; [|done]. intros r. by case_match.
Qed.

Lemma tiered_auto_clear o p s table :
  tiered o table -> tiered o (auto_clear p s table).
Proof.
  intros H. unfold auto_clear. repeat case_match; try done.
  apply tiered_map; [|done]. intros r. by case_match.
Qed.

Lemma tiered_reconcile o p s table :
  tiered o table -> tiered o (reconcile p s table).
Proof. intros. by apply tiered_auto_clear, tiered_auto_seed. Qed.

Lemma tiered_step (c : Controller num) op :
  (exists o, tiered o (rows c)) -> exists o, tiered o (rows (table_step c op)).
Proof.
  intros [o H]. destruct op as [| |[b|b]|n l|]; simpl.
  - exists o. apply tiered_reconcile, tiered_map; [|done]. done.
  - exists (fun q => feedback (gradeRowLLM (fresh "" "" "" q))).
    apply tiered_reconcile. unfold gradeAllLLM, tiered.
    apply Forall_forall. intros r' Hr'.
    apply list_elem_of_In, in_map_iff in Hr' as (r & <- & _).
    by apply gradeRowLLM_same.
  - exists o. by apply tiered_reconcile.
  - exists o. by apply tiered_reconcile.
  - exists o. apply tiered_reconcile, tiered_map; [|done].
    intros r. by case_match.
  - exists o. apply tiered_reconcile, tiered_map; [|done].
    intros r. by case_match.
Qed.

Lemma tiered_run ops (c : Controller num) :
  (exists o, tiered o (rows c)) -> exists o, tiered o (rows (table_run c ops)).
Proof.
  revert c. induction ops as [|op ops IH]; intros c H; [done|].
  simpl. apply IH, tiered_step, H.
Qed.

(** C10: start from any table of learner records as they are created,
    whatever their names, times and task counts, and run any sequence of
    the operations that assign the table.  Then any two learners of the
    table with the same tier get the same rubric breakdown, score and
    feedback from the model-assisted grader, and, when they also agree on
    carrying a flag, from the rule-based grader.  No grader takes the
    evidence or the answers of the reader as an input. *)
Theorem grading_ignores_evidence (c0 : Controller num) (ops : list TableOp) :
  Forall ungraded (rows c0) ->
  let table := rows (table_run c0 ops) in
  forall a b, a ∈ table -> b ∈ table ->
    quality a = quality b ->
    (rubric (gradeRowLLM a) = rubric (gradeRowLLM b)
     /\ score (gradeRowLLM a) = score (gradeRowLLM b)
     /\ feedback (gradeRowLLM a) = feedback (gradeRowLLM b))
    /\ (carries_flag a = carries_flag b ->
        rubric (gradeRow a) = rubric (gradeRow b)
        /\ score (gradeRow a) = score (gradeRow b)
        /\ feedback (gradeRow a) = feedback (gradeRow b)).
Proof.
  intros H0 table a b Ha Hb Hq.
  split; [by apply gradeRowLLM_same|].
  intros Hf. destruct (gradeRow_same a b Hq Hf) as [-> ->].
  split; [done|]. split; [done|].
  destruct (tiered_run ops c0) as [o Ho].
  { exists (fun _ => None). eapply Forall_impl; [exact H0|].
    by intros r (_ & _ & ->). }
  unfold tiered in Ho. rewrite Forall_forall in Ho.
  change (feedback a = feedback b).
  rewrite (Ho a Ha), (Ho b Hb). by rewrite Hq.
Qed.
End Noninterference.

Lemma grading_ignores_evidence_witness :
  let a : StudentRow.t Q := fresh "Ann" "2m" "0/7" Strong in
  let b : StudentRow.t Q := fresh "Bob" "55m" "7/7" Strong in
  (rubric (gradeRowLLM a) = rubric (gradeRowLLM b)
   /\ score (gradeRowLLM a) = score (gradeRowLLM b)
   /\ feedback (gradeRowLLM a) = feedback (gradeRowLLM b))
  /\ (rubric (gradeRow a) = rubric (gradeRow b)
      /\ score (gradeRow a) = score (gradeRow b)
      /\ feedback (gradeRow a) = feedback (gradeRow b)).
Proof.
  intros a b.
  destruct (grading_ignores_evidence
              (mkController false false [a; b]) [Switch (SetPremium true)])
    with (a := a) (b := b) as [H1 H2].
  - repeat constructor.
  - apply list_elem_of_here.
  - apply list_elem_of_further, list_elem_of_here.
  - reflexivity.
  - split; [exact H1|]. apply H2. reflexivity.
Defined.

(** The rule-based grader passes a feedback that is already in the record
    through: of two Strong learners, one with a feedback from an earlier
    model-assisted grading and one without, each keeps what it had.  No
    sequence of operations on a table of fresh records leads there. *)
Example stale_feedback_kept :
  let a : StudentRow.t Q := fresh "Ann" "2m" "0/7" Strong in
  let b : StudentRow.t Q := gradeRowLLM (fresh "Bob" "55m" "7/7" Strong) in
  feedback (gradeRow a) = None /\ feedback (gradeRow b) = Some feedback_low.
Proof.
  split; [reflexivity|]. unfold gradeRow, gradeRowLLM, fresh.
  cbn [StudentRow.quality StudentRow.flags StudentRow.feedback
       StudentRow.with_grade StudentRow.with_feedback].
  rewrite relevance_of. vm_compute. reflexivity.
Qed.

(** ** The skim-flag controller *)

Section SkimFacts.
Context {num : Type}.
Implicit Types (r : StudentRow.t num) (table : list (StudentRow.t num)).

Lemma lookup_map {A B} (f : A -> B) (l : list A) i :
  map f l !! i = f <$> (l !! i).
Proof. exact (list_lookup_fmap f l i). Qed.

Lemma existsb_lookup {A} (p : A -> bool) (l : list A) i x :
  l !! i = Some x -> p x = true -> existsb p l = true.
Proof.
  intros Hl Hp. apply existsb_exists. exists x. split; [|done].
  apply list_elem_of_In. by eapply list_elem_of_lookup_2.
Qed.

Lemma reconcile_keeps_persisted p s table i r :
  table !! i = Some r -> persisted r -> reconcile p s table !! i = Some r.
Proof.
  intros Hi [Hc Hd]. unfold reconcile.
  assert (auto_seed p s table = table) as ->.
  { unfold auto_seed. destruct (p && s)%bool; [|done].
    by rewrite (existsb_lookup (fun r => truthy_opt (flags r)) table i r Hi Hc). }
  unfold auto_clear. repeat case_match; try done.
  rewrite lookup_map, Hi. simpl. by rewrite Hd.
Qed.

Lemma reconcile_makes_no_persisted p s table i r' :
  reconcile p s table !! i = Some r' -> persisted r' -> table !! i = Some r'.
Proof.
  unfold reconcile. intros Hi Hp.
  assert (auto_seed p s table !! i = Some r') as Hi'.
  { revert Hi. unfold auto_clear. repeat case_match; try done.
    rewrite lookup_map. destruct (auto_seed p s table !! i) as [r|]; [|done].
    simpl. case_match; [|done]. intros [= <-]. by destruct Hp as [[=] _]. }
  revert Hi'. unfold auto_seed. repeat case_match; try done.
  rewrite lookup_map. destruct (table !! i) as [r|]; [|done].
  simpl. case_match; [|done]. intros [= <-]. by destruct Hp as [_ [=]].
Qed.

(** C7: a run of the reactive blocks neither changes the record of a
    learner who carries a persisted flag nor makes a persisted flag: over
    any sequence of assignments to the two switches, a learner carries a
    persisted flag at the end exactly when the same record was there at
    the start.  Persisted flags come and go only through [seedRealFlag]
    and [clearRealFlags]. *)
Theorem persisted_flags_survive (c : Controller num) (ts : list Toggle) (i : nat) :
  (forall r, rows c !! i = Some r -> persisted r ->
     rows (toggles c ts) !! i = Some r)
  /\ (forall r, rows (toggles c ts) !! i = Some r -> persisted r ->
     rows c !! i = Some r).
Proof.
  revert c. induction ts as [|t ts IH]; intros c; [done|].
  unfold toggles in *. cbn [fold_left].
  destruct (IH (toggle c t)) as [IH1 IH2]. split.
  - intros r Hi Hp. apply IH1; [|done].
    destruct t; cbn [toggle rows]; by apply reconcile_keeps_persisted.
  - intros r Hi Hp. specialize (IH2 r Hi Hp).
    destruct t; cbn [toggle rows] in IH2; by eapply reconcile_makes_no_persisted.
Qed.

Lemma unflagged_existsb table :
  unflagged table -> existsb (fun r => truthy_opt (flags r)) table = false.
Proof.
  induction 1 as [|r table Hr _ IH]; [done|]. simpl.
  unfold carries_flag in Hr. by rewrite Hr, IH.
Qed.

Lemma existsb_demo_map table :
  existsb (fun r => truthy_flag (flagsDemo r)) table = false ->
  map (fun r => if truthy_flag (flagsDemo r)
                then StudentRow.with_flags None None r else r) table = table.
Proof.
  induction table as [|r table IH]; [done|]. simpl.
  intros [-> H]%orb_false_elim. by rewrite IH.
Qed.

(** With both switches on and no flag in the table, a run of the blocks
    is the map of the first block. *)
Lemma reconcile_seeds table :
  unflagged table ->
  reconcile true true table =
  map (fun r => if is_exemplar r
                then StudentRow.with_flags (Some "Possible skim") (Some true) r
                else r) table.
Proof.
  intros H. unfold reconcile, auto_clear, auto_seed. cbn [andb negb orb].
  by rewrite (unflagged_existsb table H).
Qed.

(** With a switch off, a run of the blocks is the map of the second
    block. *)
Lemma reconcile_clears p s table :
  (p && s)%bool = false ->
  reconcile p s table =
  map (fun r => if truthy_flag (flagsDemo r)
                then StudentRow.with_flags None None r else r) table.
Proof.
  intros H. unfold reconcile, auto_clear, auto_seed. rewrite H.
  assert ((negb p || negb s)%bool = true) as -> by (by destruct p, s).
  destruct (existsb _ table) eqn:E; [done|]. by rewrite existsb_demo_map.
Qed.

Lemma seeded_states table :
  unflagged table ->
  map flag_state (reconcile true true table) = map demo_state table.
Proof.
  intros H. rewrite reconcile_seeds by done.
  induction H as [|r table Hr _ IH]; [done|]. cbn [map]. rewrite IH. f_equal.
  unfold demo_state. destruct (is_exemplar r); [done|].
  unfold flag_state. unfold carries_flag, truthy_opt in Hr.
  destruct (flags r) as [l|]; [|done]. by rewrite Hr.
Qed.

Lemma seeded_count table :
  unflagged table ->
  flagged_count (reconcile true true table) =
  length (filter (fun r => is_exemplar r = true) table).
Proof.
  intros H. rewrite reconcile_seeds by done. unfold flagged_count.
  induction H as [|r table Hr _ IH]; [done|]. cbn [map].
  destruct (is_exemplar r) eqn:E.
  - rewrite !filter_cons_True by done. simpl. by rewrite IH.
  - rewrite !filter_cons_False by (by rewrite ?Hr, ?E). done.
Qed.

Lemma cleared_after_seed p s table :
  (p && s)%bool = false -> unflagged table ->
  unflagged (reconcile p s (reconcile true true table))
  /\ map name (reconcile p s (reconcile true true table)) = map name table.
Proof.
  intros Hps H. rewrite (reconcile_clears p s) by done.
  rewrite reconcile_seeds by done.
  induction H as [|r table Hr _ [IH1 IH2]]; [by split; [constructor|]|].
  cbn [map]. split.
  - constructor; [|done]. destruct (is_exemplar r); [done|]. by case_match.
  - rewrite IH2. f_equal. destruct (is_exemplar r); [done|]. by case_match.
Qed.

Lemma demo_state_names table table' :
  map name table' = map name table ->
  map demo_state table' = map demo_state table.
Proof.
  revert table'. induction table as [|r table IH]; intros [|r' table']; try done.
  cbn [map]. intros [= Hn Hm]. unfold demo_state at 1 3. unfold is_exemplar.
  rewrite Hn. f_equal. by apply IH.
Qed.

Lemma exemplar_names table table' :
  map name table' = map name table ->
  length (filter (fun r => is_exemplar r = true) table') =
  length (filter (fun r => is_exemplar r = true) table).
Proof.
  revert table'. induction table as [|r table IH]; intros [|r' table']; try done.
  cbn [map]. intros [= Hn Hm].
  assert (is_exemplar r' = is_exemplar r) as E
    by (unfold is_exemplar; by rewrite Hn).
  destruct (is_exemplar r) eqn:Er.
  - rewrite !filter_cons_True by done. simpl. f_equal. by apply IH.
  - rewrite !filter_cons_False by (by rewrite ?E, ?Er). by apply IH.
Qed.

Lemma unflagged_count table : unflagged table -> flagged_count table = 0.
Proof.
  unfold flagged_count. induction 1 as [|r table Hr _ IH]; [done|].
  by rewrite filter_cons_False by (by rewrite Hr).
Qed.

(** C6 (as amended): with the capability on and no flag in the table,
    turning the mode on gives the demonstration flag to every learner named
    "Ben R." and to nobody else, so to exactly one learner when exactly one
    has that name; turning the mode off again leaves no flag in the table;
    turning it on once more gives the same flags as the first time. *)
Theorem demo_flag_cycle table :
  unflagged table ->
  let c0 := mkController true false table in
  let on := toggle c0 (SetSkimEnabled true) in
  let off := toggle on (SetSkimEnabled false) in
  let again := toggle off (SetSkimEnabled true) in
  (map flag_state (rows on) = map demo_state table
   /\ flagged_count (rows on) =
      length (filter (fun r => is_exemplar r = true) table))
  /\ flagged_count (rows off) = 0
  /\ (map flag_state (rows again) = map demo_state table
      /\ flagged_count (rows again) =
         length (filter (fun r => is_exemplar r = true) table)).
Proof.
  intros H. cbn [toggle premium skimEnabled rows].
  destruct (cleared_after_seed true false table eq_refl H) as [Hoff Hnames].
  split; [by split; [apply seeded_states|apply seeded_count]|].
  split; [by apply unflagged_count|].
  split.
  - rewrite seeded_states by done. by apply demo_state_names.
  - rewrite seeded_count by done. by apply exemplar_names.
Qed.
End SkimFacts.

Lemma demo_flag_cycle_witness :
  flagged_count
    (rows (toggle (mkController true false (rows0 (num := Q)))
             (SetSkimEnabled true))) = 1
  /\ flagged_count
       (rows (toggle
                (toggle (mkController true false (rows0 (num := Q)))
                   (SetSkimEnabled true))
                (SetSkimEnabled false))) = 0.
Proof.
  destruct (demo_flag_cycle (rows0 (num := Q))) as ((_ & H1) & H2 & _).
  - repeat constructor.
  - split; [exact H1|exact H2].
Defined.

(** C6, as stated, fails: in a table without a learner named "Ben R."
    no learner carries a flag, both switches come on, and still nobody is
    flagged. *)
Lemma no_exemplar_no_flag :
  let table : list (StudentRow.t Q) :=
    [ fresh "Alice W." "15m" "7/7" Strong; fresh "Chris T." "14m" "6/7" Medium ] in
  unflagged table
  /\ flagged_count
       (rows (toggle (mkController true false table) (SetSkimEnabled true))) = 0.
Proof. split; [by repeat constructor|done]. Qed.

Lemma persisted_flags_survive_witness :
  let table : list (StudentRow.t Q) := seedRealFlag "Alice W." None rows0 in
  rows (toggles (mkController true true table) three_cycles) !! 0 = table !! 0.
Proof.
  intros table.
  apply (persisted_flags_survive (mkController true true table) three_cycles 0).
  - reflexivity.
  - split; reflexivity.
Defined.

(** The two helpers make and remove a persisted flag, and leave a
    demonstration flag alone. *)
Example seed_and_clear :
  let seeded := seedRealFlag "Alice W." None (rows0 (num := Q)) in
  let on := reconcile true true (rows0 (num := Q)) in
  map flag_state seeded = [Some ("Skim (real)", Persisted); None; None]
  /\ map flag_state (clearRealFlags seeded) = [None; None; None]
  /\ map flag_state (clearRealFlags on) = map flag_state on.
Proof. repeat split. Qed.

(** The flags of the table of the source through one turn of the mode. *)
Example flags_of_rows0 :
  let on := toggle (mkController true false (rows0 (num := Q))) (SetSkimEnabled true) in
  let off := toggle on (SetSkimEnabled false) in
  map flag_state (rows on) = [None; Some ("Possible skim", Demo); None]
  /\ map flag_state (rows off) = [None; None; None].
Proof. split; reflexivity. Qed.

(** ** The reader

    *** Strings *)
Lemma length_append (a b : string) :
  String.length (a ++ b) = String.length a + String.length b.
Proof. induction a as [|c a IH]; simpl; [done|]. by rewrite IH. Qed.

Lemma substring_skip (v d : string) (s n : nat) :
  substring (String.length v + s) n (v ++ d) = substring s n d.
Proof. induction v as [|c v IH]; simpl; done. Qed.

Lemma substring_within (v d : string) (s n : nat) :
  s + n <= String.length v -> substring s n (v ++ d) = substring s n v.
Proof.
  revert s n. induction v as [|c v IH]; intros s n H; simpl in *.
  - assert (s = 0 /\ n = 0) as [-> ->] by lia. by destruct d.
  - destruct s as [|s].
    + destruct n as [|n]; [done|]. f_equal. apply IH. lia.
    + apply IH. lia.
Qed.

Lemma substring_whole (v : string) :
  substring 0 (String.length v) v = v.
Proof. induction v as [|c v IH]; simpl; [done|]. by rewrite IH. Qed.

Lemma substring_head (v d : string) (k : nat) :
  substring 0 (String.length v + k) (v ++ d) = v ++ substring 0 k d.
Proof. induction v as [|c v IH]; simpl; [done|]. by rewrite IH. Qed.

Lemma substring_across (v d : string) (s k : nat) :
  s <= String.length v ->
  substring s (String.length v - s + k) (v ++ d) =
  substring s (String.length v - s) v ++ substring 0 k d.
Proof.
  revert s. induction v as [|c v IH]; intros s H; simpl in *.
  - assert (s = 0) as -> by lia. done.
  - destruct s as [|s].
    + simpl. f_equal. rewrite substring_head. by rewrite substring_whole.
    + apply IH. lia.
Qed.

Lemma length_substring (v : string) (s n : nat) :
  s + n <= String.length v -> String.length (substring s n v) = n.
Proof.
  revert s n. induction v as [|c v IH]; intros s n H; simpl in *.
  - assert (s = 0 /\ n = 0) as [-> ->] by lia. done.
  - destruct s as [|s].
    + destruct n as [|n]; [done|]. simpl. f_equal. apply IH. lia.
    + apply IH. lia.
Qed.

Lemma length_trimStart (s : string) : String.length (trimStart s) <= String.length s.
Proof. induction s as [|c s IH]; simpl; [done|]. destruct (is_space c); simpl; lia. Qed.

Lemma length_trimEnd (s : string) : String.length (trimEnd s) <= String.length s.
Proof.
  induction s as [|c s IH]; simpl; [done|].
  destruct (trimEnd s) eqn:E; [destruct (is_space c)|]; simpl in *; lia.
Qed.

Lemma length_trim (s : string) : String.length (trim s) <= String.length s.
Proof.
  unfold trim. etrans; [apply length_trimEnd|apply length_trimStart].
Qed.

(** *** The walk over the text nodes *)

Lemma walk_tail nodes range acc sg eg t :
  startContainer range ∉ map fst nodes ->
  (forall v, (endContainer range, v) ∈ nodes -> endOffset range <= String.length v) ->
  range_tail nodes range = Some t ->
  exists k,
    walk nodes range acc sg eg = (sg, (acc + Z.of_nat k)%Z)
    /\ k <= String.length (join nodes)
    /\ substring 0 k (join nodes) = t.
Proof.
  revert acc t. induction nodes as [|[i v] nodes IH]; intros acc t Hs Hb Ht; [done|].
  cbn [map fst] in Hs. apply not_elem_of_cons in Hs as [Hs1 Hs2].
  cbn [walk range_tail] in *.
  rewrite (decide_False (P := i = startContainer range)) by congruence.
  destruct (decide (i = endContainer range)) as [->|Hne].
  - injection Ht as <-. exists (endOffset range). split; [done|].
    assert (endOffset range <= String.length v) by (apply Hb; left).
    unfold join; simpl. rewrite length_append. split; [lia|].
    apply substring_within. lia.
  - destruct (range_tail nodes range) as [t'|] eqn:Et; [|done]. injection Ht as <-.
    destruct (IH (acc + Z.of_nat (String.length v))%Z t') as (k & Hw & Hk & Hsub);
      [done|by intros w Hw; apply Hb; right|done|].
    exists (String.length v + k). rewrite Hw. split; [f_equal; lia|].
    unfold join in *; simpl. rewrite length_append. split; [lia|].
    by rewrite substring_head, Hsub.
Qed.

Lemma walk_range nodes range acc sg eg t :
  NoDup (map fst nodes) ->
  offsets_in_bounds nodes range ->
  range_text nodes range = Some t ->
  exists s e,
    walk nodes range acc sg eg = ((acc + Z.of_nat s)%Z, (acc + Z.of_nat e)%Z)
    /\ s <= e <= String.length (join nodes)
    /\ substring s (e - s) (join nodes) = t
    /\ String.length t = e - s.
Proof.
  revert acc. induction nodes as [|[i v] nodes IH]; intros acc Hnd (Hbs & Hbe & Hse) Ht; [done|].
  cbn [map fst] in Hnd. apply NoDup_cons in Hnd as [Hi Hnd].
  cbn [walk range_text] in *.
  destruct (decide (i = startContainer range)) as [->|Hns].
  - assert (startOffset range <= String.length v) as Hso by (apply Hbs; left).
    destruct (decide (startContainer range = endContainer range)) as [Heq|Hne].
    + injection Ht as <-.
      assert (endOffset range <= String.length v) as Heo by (apply Hbe; rewrite <- Heq; left).
      specialize (Hse Heq).
      exists (startOffset range), (endOffset range). split; [done|].
      unfold join; simpl. rewrite length_append. split; [lia|].
      rewrite substring_within by lia. split; [done|].
      apply length_substring. lia.
    + destruct (range_tail nodes range) as [t'|] eqn:Et; [|done]. injection Ht as <-.
      destruct (walk_tail nodes range (acc + Z.of_nat (String.length v))%Z
                  (acc + Z.of_nat (startOffset range))%Z eg t') as (k & Hw & Hk & Hsub);
        [done|by intros w Hw; apply Hbe; right|done|].
      exists (startOffset range), (String.length v + k). rewrite Hw.
      split; [f_equal; lia|].
      unfold join in *; simpl. rewrite length_append. split; [lia|].
      replace (String.length v + k - startOffset range)
        with (String.length v - startOffset range + k) by lia.
      rewrite substring_across by done. rewrite Hsub. split; [done|].
      rewrite length_append, length_substring by lia.
      rewrite <- Hsub, length_substring by lia. lia.
  - destruct (decide (i = endContainer range)) as [->|Hne]; [done|].
    destruct (IH (acc + Z.of_nat (String.length v))%Z) as (s & e & Hw & Hle & Hsub & Hlen); [done| |done|].
    { split; [|split]; [by intros w Hw; apply Hbs; right|by intros w Hw; apply Hbe; right|done]. }
    exists (String.length v + s), (String.length v + e). rewrite Hw.
    split; [f_equal; lia|].
    unfold join in *; simpl. rewrite length_append. split; [lia|].
    replace (String.length v + e - (String.length v + s)) with (e - s) by lia.
    rewrite substring_skip. split; [done|lia].
Qed.

Lemma walk_no_start nodes range acc sg eg :
  startContainer range ∉ map fst nodes ->
  (walk nodes range acc sg eg).1 = sg.
Proof.
  revert acc. induction nodes as [|[i v] nodes IH]; intros acc Hs; [done|].
  cbn [map fst] in Hs. apply not_elem_of_cons in Hs as [Hs1 Hs2].
  cbn [walk]. rewrite (decide_False (P := i = startContainer range)) by congruence.
  destruct (decide (i = endContainer range)); [done|]. by apply IH.
Qed.

Lemma walk_no_end nodes range acc sg eg :
  endContainer range ∉ map fst nodes ->
  (walk nodes range acc sg eg).2 = eg.
Proof.
  revert acc sg. induction nodes as [|[i v] nodes IH]; intros acc sg He; [done|].
  cbn [map fst] in He. apply not_elem_of_cons in He as [He1 He2].
  cbn [walk]. rewrite (decide_False (P := i = endContainer range)) by congruence.
  by apply IH.
Qed.

Lemma walk_same_node before i v after so eo ca acc sg eg :
  i ∉ map fst before ->
  walk (before ++ (i, v) :: after) (mkRange i so i eo ca) acc sg eg =
  ((acc + Z.of_nat (String.length (join before)) + Z.of_nat so)%Z,
   (acc + Z.of_nat (String.length (join before)) + Z.of_nat eo)%Z).
Proof.
  revert acc. induction before as [|[j w] before IH]; intros acc Hi.
  - cbn. rewrite !decide_True by done. f_equal; lia.
  - cbn [map fst] in Hi. apply not_elem_of_cons in Hi as [Hi1 Hi2].
    cbn [app walk startContainer endContainer].
    rewrite !(decide_False (P := j = i)) by congruence.
    rewrite IH by done. unfold join; cbn [map snd fold_right].
    rewrite length_append. f_equal; lia.
Qed.

(** *** Tasks *)
Lemma complete_highlight_again ts :
  complete_highlight (complete_highlight ts) = complete_highlight ts.
Proof.
  induction ts as [|t ts IH]; [done|]. cbn [complete_highlight].
  destruct (decide (Task.type t = Task.highlight)) as [H|H]; cbn [complete_highlight].
  - by rewrite decide_True.
  - by rewrite decide_False, IH.
Qed.

Lemma complete_highlight_found ts t :
  find_highlight ts = Some t ->
  find_highlight (complete_highlight ts) = Some (Task.with_done true t).
Proof.
  unfold find_highlight. induction ts as [|u ts IH]; [done|]. cbn [complete_highlight].
  destruct (decide (Task.type u = Task.highlight)) as [H|H].
  - rewrite !filter_cons_True by done. by intros [= ->].
  - rewrite !filter_cons_False by done. apply IH.
Qed.

Lemma complete_highlight_none ts :
  find_highlight ts = None -> complete_highlight ts = ts.
Proof.
  unfold find_highlight. induction ts as [|u ts IH]; [done|]. cbn [complete_highlight].
  destruct (decide (Task.type u = Task.highlight)) as [H|H].
  - by rewrite filter_cons_True.
  - rewrite filter_cons_False by done. intros E. by rewrite IH.
Qed.

(** *** The handler *)
Lemma join_walker container :
  walker container <> [] -> join (walker container) = textContent container.
Proof. by destruct container. Qed.

Lemma capture_cases container selection st :
  (onMouseUpCapture container selection st).1 = st
  \/ exists sel range rest s e,
       selection = Some sel /\ ranges sel = range :: rest
       /\ contains container (commonAncestorContainer range) = true
       /\ 3 <= String.length (trim (toString sel))
       /\ walk (walker container) range 0 (-1) (-1) = (s, e)
       /\ (0 <= s < e)%Z
       /\ (onMouseUpCapture container selection st).1 =
          mkReader
            (evidence st ++
             [Evidence.mk ("e" ++ decimal_digits (length (evidence st) + 1))
                (toString sel) s e])
            (complete_highlight (tasks st)).
Proof.
  unfold onMouseUpCapture.
  destruct selection as [sel|]; [|by left].
  destruct (ranges sel) as [|range rest] eqn:Er; [by left|].
  destruct (contains container (commonAncestorContainer range)) eqn:Ec; [|by left].
  cbn [negb].
  destruct (truthy (toString sel)) eqn:Et; [|by left]. cbn [negb orb].
  destruct (Nat.ltb_spec (String.length (trim (toString sel))) 3) as [Hl|Hl]; [by left|].
  destruct (walk (walker container) range 0 (-1) (-1)) as [s e] eqn:Ew.
  destruct (Z.leb_spec 0 s) as [H0|H0]; [|by left].
  destruct (Z.ltb_spec s e) as [H1|H1]; [|by left].
  right. exists sel, range, rest, s, e. cbn [andb fst]. by repeat split.
Qed.

(** The handler past its two checks: what the offsets of the walk decide. *)
Lemma capture_by_walk container sel range rest st s e :
  ranges sel = range :: rest ->
  contains container (commonAncestorContainer range) = true ->
  3 <= String.length (trim (toString sel)) ->
  walk (walker container) range 0 (-1) (-1) = (s, e) ->
  (onMouseUpCapture container (Some sel) st).1 =
  if ((0 <=? s)%Z && (s <? e)%Z)%bool
  then mkReader
         (evidence st ++
          [Evidence.mk ("e" ++ decimal_digits (length (evidence st) + 1))
             (toString sel) s e])
         (complete_highlight (tasks st))
  else st.
Proof.
  intros Er Hc Hl Hw. unfold onMouseUpCapture. rewrite Er, Hc. cbn [negb].
  pose proof (length_trim (toString sel)) as Htrim.
  destruct (toString sel) as [|c text] eqn:Etext; [simpl in *; lia|].
  rewrite <- Etext in *.
  assert (truthy (toString sel) = true) as -> by (by rewrite Etext).
  cbn [negb orb].
  destruct (Nat.ltb_spec (String.length (trim (toString sel))) 3); [lia|].
  rewrite Hw. by destruct ((0 <=? s)%Z && (s <? e)%Z)%bool.
Qed.

(** *** Completing the highlight task *)
Lemma find_highlight_type ts t :
  find_highlight ts = Some t -> Task.type t = Task.highlight.
Proof.
  unfold find_highlight. induction ts as [|u ts IH]; [done|].
  destruct (decide (Task.type u = Task.highlight)) as [H|H].
  - rewrite filter_cons_True by done. by intros [= <-].
  - by rewrite filter_cons_False.
Qed.

Lemma find_highlight_first before t after :
  Forall (fun u => Task.type u <> Task.highlight) before ->
  Task.type t = Task.highlight ->
  find_highlight (before ++ t :: after) = Some t.
Proof.
  unfold find_highlight. intros Hb Ht.
  induction Hb as [|u before Hu _ IH]; cbn [app].
  - by rewrite filter_cons_True.
  - by rewrite filter_cons_False.
Qed.

Lemma complete_highlight_completes ts : completes ts (complete_highlight ts).
Proof.
  unfold completes, find_highlight. induction ts as [|u ts IH]; [done|].
  cbn [complete_highlight].
  destruct (decide (Task.type u = Task.highlight)) as [H|H].
  - rewrite filter_cons_True by done. exists [], ts. by repeat split.
  - rewrite filter_cons_False by done.
    destruct (head (filter (fun t => Task.type t = Task.highlight) ts)) as [t|].
    + destruct IH as (before & after & E & Hb & ->).
      exists (u :: before), after. rewrite E. split; [done|].
      split; [by constructor|done].
    + by rewrite IH.
Qed.

Lemma completes_done ts ts' t' :
  completes ts ts' -> find_highlight ts' = Some t' -> Task.done t' = Some true.
Proof.
  unfold completes. destruct (find_highlight ts) as [t|] eqn:E.
  - intros (before & after & _ & Hb & ->) Ht'.
    rewrite find_highlight_first in Ht'; [by injection Ht' as <-|done|].
    by apply find_highlight_type in E.
  - intros ->. congruence.
Qed.

Lemma completes_again ts ts' t :
  completes ts ts' -> find_highlight ts = Some t -> Task.done t = Some true ->
  ts' = ts.
Proof.
  unfold completes. intros H E Hd. rewrite E in H.
  destruct H as (before & after & -> & _ & ->).
  destruct t as [i k p d a]. cbn in *. by subst d.
Qed.

(** *** The offsets of the walk and the positions of the boundary points *)
Lemma position_found nodes ref off :
  ref ∈ map fst nodes -> exists p, position nodes ref off = Some p /\ off <= p.
Proof.
  induction nodes as [|[i v] nodes IH]; cbn [map fst position].
  - by intros ?%elem_of_nil.
  - intros H. destruct (decide (i = ref)) as [->|Hne]; [by exists off|].
    apply elem_of_cons in H as [H|H]; [congruence|].
    destruct (IH H) as (p & -> & Hp). eexists. split; [reflexivity|lia].
Qed.

Lemma walk_end_found nodes range acc sg eg e :
  startContainer range ∉ map fst nodes ->
  position nodes (endContainer range) (endOffset range) = Some e ->
  walk nodes range acc sg eg = (sg, (acc + Z.of_nat e)%Z).
Proof.
  revert acc e. induction nodes as [|[i v] nodes IH]; intros acc e Hs He; [done|].
  cbn [map fst] in Hs. apply not_elem_of_cons in Hs as [Hs1 Hs2].
  cbn [walk position] in *.
  rewrite (decide_False (P := i = startContainer range)) by congruence.
  destruct (decide (i = endContainer range)) as [->|Hne].
  - by injection He as <-.
  - destruct (position nodes (endContainer range) (endOffset range)) as [e'|] eqn:E;
      [|done].
    injection He as <-. rewrite (IH _ e') by done. f_equal. lia.
Qed.

Lemma walk_position nodes range acc sg eg :
  NoDup (map fst nodes) -> offsets_in_bounds nodes range ->
  startContainer range ∈ map fst nodes -> endContainer range ∈ map fst nodes ->
  exists s e,
    position nodes (startContainer range) (startOffset range) = Some s
    /\ position nodes (endContainer range) (endOffset range) = Some e
    /\ (walk nodes range acc sg eg = ((acc + Z.of_nat s)%Z, (acc + Z.of_nat e)%Z)
        \/ (e <= s /\ walk nodes range acc sg eg = (sg, (acc + Z.of_nat e)%Z))).
Proof.
  revert acc. induction nodes as [|[i v] nodes IH]; intros acc Hnd (Hbs & Hbe & Hse) Hs He.
  { by apply elem_of_nil in Hs. }
  cbn [map fst] in Hnd, Hs, He. apply NoDup_cons in Hnd as [Hi Hnd].
  cbn [walk position].
  destruct (decide (i = startContainer range)) as [Es|Ns];
    destruct (decide (i = endContainer range)) as [Ee|Ne].
  - exists (startOffset range), (endOffset range). by repeat split; [..|left].
  - apply elem_of_cons in He as [He|He]; [congruence|].
    destruct (position_found _ _ (endOffset range) He) as (e' & Ee' & _).
    rewrite Ee'. eexists _, _. split; [reflexivity|]. split; [reflexivity|]. left.
    rewrite (walk_end_found _ _ _ _ _ e') by (done || congruence).
    f_equal. lia.
  - apply elem_of_cons in Hs as [Hs|Hs]; [congruence|].
    destruct (position_found _ _ (startOffset range) Hs) as (s' & Es' & _).
    rewrite Es'. eexists _, _. split; [reflexivity|]. split; [reflexivity|]. right.
    split; [|done].
    assert (endOffset range <= String.length v) by (apply Hbe; rewrite <- Ee; left).
    lia.
  - apply elem_of_cons in Hs as [Hs|Hs]; [congruence|].
    apply elem_of_cons in He as [He|He]; [congruence|].
    destruct (IH (acc + Z.of_nat (String.length v))%Z) as (s & e & -> & -> & Hw);
      [done| |done|done|].
    { split; [|split]; [by intros w Hw; apply Hbs; right
                       |by intros w Hw; apply Hbe; right|done]. }
    eexists _, _. split; [reflexivity|]. split; [reflexivity|].
    destruct Hw as [->|[Hle ->]]; [left|right; split; [lia|]]; f_equal; lia.
Qed.

Lemma walk_end_bound nodes range acc sg eg :
  (forall v, (endContainer range, v) ∈ nodes -> endOffset range <= String.length v) ->
  (walk nodes range acc sg eg).2 = eg
  \/ (acc <= (walk nodes range acc sg eg).2
      <= acc + Z.of_nat (String.length (join nodes)))%Z.
Proof.
  revert acc sg. induction nodes as [|[i v] nodes IH]; intros acc sg Hb; [by left|].
  cbn [walk]. unfold join; cbn [map snd fold_right]. rewrite length_append.
  destruct (decide (i = endContainer range)) as [->|Hne].
  - right. cbn [snd]. assert (endOffset range <= String.length v) by (apply Hb; left).
    lia.
  - destruct (IH (acc + Z.of_nat (String.length v))%Z
                (if decide (i = startContainer range)
                 then (acc + Z.of_nat (startOffset range))%Z else sg)) as [E|E].
    + by intros w Hw; apply Hb; right.
    + by left.
    + right. unfold join in E. lia.
Qed.

Lemma range_tail_found nodes range :
  endContainer range ∈ map fst nodes -> is_Some (range_tail nodes range).
Proof.
  induction nodes as [|[i v] nodes IH]; cbn [map fst range_tail].
  - by intros ?%elem_of_nil.
  - intros H. destruct (decide (i = endContainer range)) as [|Hne]; [done|].
    apply elem_of_cons in H as [H|H]; [congruence|].
    destruct (IH H) as [t ->]. done.
Qed.

(** A walk that finds a start and an end has met the start node first:
    the range has a text. *)
Lemma walk_forward nodes range acc :
  (0 <= acc)%Z ->
  (0 <= (walk nodes range acc (-1) (-1)).1)%Z ->
  (walk nodes range acc (-1) (-1)).2 <> (-1)%Z ->
  is_Some (range_text nodes range).
Proof.
  revert acc. induction nodes as [|[i v] nodes IH]; intros acc Hacc Hs He; [done|].
  cbn [walk range_text] in *.
  destruct (decide (i = startContainer range)) as [Es|Ns];
    destruct (decide (i = endContainer range)) as [Ee|Ne]; cbn [fst snd] in *.
  - done.
  - destruct (decide (endContainer range ∈ map fst nodes)) as [Hin|Hout].
    + destruct (range_tail_found _ _ Hin) as [t ->]. done.
    + rewrite walk_no_end in He by done. done.
  - lia.
  - apply (IH (acc + Z.of_nat (String.length v))%Z); [lia|done|done].
Qed.

Lemma append_empty (s : string) : s ++ "" = s.
Proof.
  induction s as [|c s IH]; [done|].
  change (String c (s ++ "") = String c s). by rewrite IH.
Qed.

(** C3 (as amended): a selection event either leaves the evidence and
    the tasks of the reader as they were, or appends exactly one span, with
    the text of the selection, and completes the highlight task.  It leaves
    them as they were when the text trims to fewer than three characters,
    when the range lies outside the passage, or when a boundary node is
    none of the text nodes of the passage; and, for a range of the DOM in
    every other case, exactly when the end of the first range does not lie
    after its start in the text of the passage.  After a capture the
    highlight task is done, and when it was done already the tasks are as
    they were.  (The handler also clears the selection of the browser once
    it is past the check of the text.) *)
Theorem selection_atomic container sel range rest st :
  ranges sel = range :: rest ->
  let st' := (onMouseUpCapture container (Some sel) st).1 in
  (st' = st
   \/ exists s e, (0 <= s < e)%Z /\ captured (toString sel) s e st st')
  /\ (degenerate container sel range -> st' = st)
  /\ (distinct_nodes container -> dom_range container sel ->
      ~ degenerate container sel range ->
      exists s e,
        position (walker container) (startContainer range) (startOffset range)
        = Some s
        /\ position (walker container) (endContainer range) (endOffset range)
           = Some e
        /\ (e <= s -> st' = st)
        /\ (s < e -> captured (toString sel) (Z.of_nat s) (Z.of_nat e) st st'))
  /\ (forall s e, captured (toString sel) s e st st' ->
      (forall t', find_highlight (tasks st') = Some t' -> is_done t' = true)
      /\ (forall t, find_highlight (tasks st) = Some t -> Task.done t = Some true ->
          tasks st' = tasks st)).
Proof.
  intros Er st'. split; [|split; [|split]].
  - destruct (capture_cases container (Some sel) st)
      as [H|(sel' & range' & rest' & s & e & [= <-] & _ & _ & _ & _ & Hse & H)];
      [by left|].
    right. exists s, e. split; [done|]. subst st'. rewrite H.
    split; [done|]. apply complete_highlight_completes.
  - intros Hd.
    destruct (capture_cases container (Some sel) st)
      as [H|(sel' & range' & rest' & s & e & [= <-] & Er' & Hc & Hl & Hw & Hse & _)]; [done|].
    rewrite Er in Er'. injection Er' as <- <-.
    destruct Hd as [Hd|[Hd|[Hd|Hd]]].
    + lia.
    + congruence.
    + pose proof (walk_no_start _ _ 0%Z (-1)%Z (-1)%Z Hd) as E. rewrite Hw in E. simpl in E. lia.
    + pose proof (walk_no_end _ _ 0%Z (-1)%Z (-1)%Z Hd) as E. rewrite Hw in E. simpl in E. lia.
  - intros Hnd Hb Hd. unfold dom_range in Hb. rewrite Er in Hb.
    assert (3 <= String.length (trim (toString sel))) as Hl.
    { destruct (Nat.le_gt_cases 3 (String.length (trim (toString sel)))); [done|].
      exfalso. apply Hd. by left. }
    assert (contains container (commonAncestorContainer range) = true) as Hc.
    { destruct (contains container (commonAncestorContainer range)) eqn:E; [done|].
      exfalso. apply Hd. right. by left. }
    assert (startContainer range ∈ map fst (walker container)) as Hs.
    { destruct (decide (startContainer range ∈ map fst (walker container))); [done|].
      exfalso. apply Hd. right. right. by left. }
    assert (endContainer range ∈ map fst (walker container)) as He.
    { destruct (decide (endContainer range ∈ map fst (walker container))); [done|].
      exfalso. apply Hd. by repeat right. }
    destruct (walk_position _ _ 0%Z (-1)%Z (-1)%Z Hnd Hb Hs He)
      as (s & e & Ps & Pe & Hw).
    exists s, e. split; [done|]. split; [done|]. subst st'.
    destruct Hw as [Hw|[Hle Hw]];
      rewrite (capture_by_walk _ _ _ _ _ _ _ Er Hc Hl Hw); rewrite ?Z.add_0_l.
    + split; intros Hse.
      * destruct (Z.ltb_spec (Z.of_nat s) (Z.of_nat e)); [lia|].
        by rewrite andb_false_r.
      * destruct (Z.leb_spec 0 (Z.of_nat s)); [|lia].
        destruct (Z.ltb_spec (Z.of_nat s) (Z.of_nat e)); [|lia].
        cbn [andb]. split; [done|]. apply complete_highlight_completes.
    + cbn [Z.leb andb]. split; [done|]. intros Hse. lia.
  - intros s e [_ Hc]. split.
    + intros t' Ht'. unfold is_done. by rewrite (completes_done _ _ _ Hc Ht').
    + intros t Ht Hd. by apply (completes_again _ _ _ Hc Ht Hd).
Qed.

(** *** The spans of the evidence *)
Lemma capture_ordered container selection st :
  Forall (fun e => (0 <= Evidence.start e < Evidence.end_ e)%Z) (evidence st) ->
  Forall (fun e => (0 <= Evidence.start e < Evidence.end_ e)%Z)
    (evidence (onMouseUpCapture container selection st).1).
Proof.
  intros H.
  destruct (capture_cases container selection st)
    as [->|(sel & range & rest & s & e & _ & _ & _ & _ & _ & Hse & ->)]; [done|].
  cbn [evidence]. apply Forall_app. split; [done|]. constructor; [done|constructor].
Qed.

Lemma capture_within container selection st :
  on_event (dom_range container) selection ->
  Forall (span_within (textContent container)) (evidence st) ->
  Forall (span_within (textContent container))
    (evidence (onMouseUpCapture container selection st).1).
Proof.
  intros Hb H.
  destruct (capture_cases container selection st)
    as [->|(sel & range & rest & s & e & -> & Er & _ & _ & Hw & Hse & ->)]; [done|].
  cbn [evidence]. apply Forall_app. split; [done|]. constructor; [|constructor].
  cbn [on_event] in Hb. unfold dom_range in Hb. rewrite Er in Hb.
  destruct Hb as (_ & Hbe & _).
  assert (walker container <> []) as Hne.
  { intros E. rewrite E in Hw. cbn in Hw. injection Hw as <- <-. lia. }
  destruct (walk_end_bound (walker container) range 0%Z (-1)%Z (-1)%Z Hbe) as [E|E];
    rewrite Hw in E; cbn [snd] in E; [lia|].
  rewrite join_walker in E by done.
  unfold span_within. cbn [Evidence.start Evidence.end_]. lia.
Qed.

Lemma capture_span_ok container selection st :
  distinct_nodes container ->
  on_event (fun sel => dom_range container sel /\ dom_text container sel
                       /\ single_range sel) selection ->
  Forall (span_ok (textContent container)) (evidence st) ->
  Forall (span_ok (textContent container))
    (evidence (onMouseUpCapture container selection st).1).
Proof.
  intros Hnd Hdom H.
  destruct (capture_cases container selection st)
    as [->|(sel & range & rest & s & e & -> & Er & _ & _ & Hw & Hse & ->)]; [done|].
  cbn [evidence]. apply Forall_app. split; [done|]. constructor; [|constructor].
  cbn [on_event] in Hdom. destruct Hdom as (Hb & Ht & Hone).
  unfold dom_range in Hb. unfold dom_text in Ht. unfold single_range in Hone.
  rewrite Er in Hb, Ht, Hone.
  destruct rest; [|done]. cbn [selection_text] in Ht.
  destruct (walk_forward (walker container) range 0%Z) as [t Et];
    [done|rewrite Hw; cbn; lia|rewrite Hw; cbn; lia|].
  rewrite Et in Ht. specialize (Ht _ eq_refl). rewrite append_empty in Ht.
  destruct (walk_range _ _ 0%Z (-1)%Z (-1)%Z _ Hnd Hb Et)
    as (s' & e' & Hw' & Hle & Hsub & Hlen).
  rewrite Hw in Hw'. injection Hw' as -> ->.
  assert (walker container <> []) as Hne.
  { intros E. rewrite E in Et. done. }
  rewrite join_walker in * by done.
  unfold span_ok, slice. cbn [Evidence.start Evidence.end_ Evidence.text].
  rewrite !Z.add_0_l, !Nat2Z.id. repeat split; try lia. by rewrite Ht.
Qed.

Lemma capture_text container selection st :
  evidence (onMouseUpCapture container selection st).1 = evidence st
  \/ exists sel span,
       selection = Some sel /\ Evidence.text span = toString sel
       /\ evidence (onMouseUpCapture container selection st).1
          = (evidence st ++ [span])%list.
Proof.
  destruct (capture_cases container selection st)
    as [->|(sel & range & rest & s & e & -> & _ & _ & _ & _ & _ & ->)]; [by left|].
  right. eexists sel, _. split; [done|]. split; [|cbn [evidence]; reflexivity].
  reflexivity.
Qed.

(** C5 (as amended): after any run of selection events every span of the
    evidence has [0 <= start < end], whatever the events are, and holds the
    text of the selection that made it.  When the offsets of the ranges lie
    within their nodes, as those of a range of the DOM do, every span also
    ends within the text of the passage.  When in addition every selection
    has one range and its text is the text of that range, the text of
    every span is the slice of the text of the passage from [start] to
    [end]. *)
Theorem evidence_spans_ok container events st :
  (Forall (fun e => (0 <= Evidence.start e < Evidence.end_ e)%Z) (evidence st) ->
   Forall (fun e => (0 <= Evidence.start e < Evidence.end_ e)%Z)
     (evidence (capture_all container events st)))
  /\ Forall
       (fun e => e ∈ evidence st
                 \/ exists sel, Some sel ∈ events /\ Evidence.text e = toString sel)
       (evidence (capture_all container events st))
  /\ (Forall (on_event (dom_range container)) events ->
      Forall (span_within (textContent container)) (evidence st) ->
      Forall (span_within (textContent container))
        (evidence (capture_all container events st)))
  /\ (distinct_nodes container ->
      Forall (on_event (fun sel => dom_range container sel
                                   /\ dom_text container sel
                                   /\ single_range sel)) events ->
      Forall (span_ok (textContent container)) (evidence st) ->
      Forall (span_ok (textContent container))
        (evidence (capture_all container events st))).
Proof.
  unfold capture_all. split; [|split; [|split]].
  - revert st. induction events as [|ev events IH]; intros st H; [done|].
    cbn [fold_left]. by apply IH, capture_ordered.
  - revert st. induction events as [|ev events IH]; intros st.
    + cbn [fold_left]. apply Forall_forall. intros e He. by left.
    + cbn [fold_left]. eapply Forall_impl; [apply IH|].
      intros e [He|(sel & Hsel & Ht)].
      * destruct (capture_text container ev st) as [E|(sel & span & -> & Ht & E)];
          rewrite E in He; [by left|].
        apply elem_of_app in He as [He|He]; [by left|].
        apply list_elem_of_singleton in He as ->.
        right. exists sel. split; [left|done].
      * right. exists sel. split; [by right|done].
  - intros Hev. revert st. induction Hev as [|ev events Hb _ IH]; intros st H; [done|].
    cbn [fold_left]. by apply IH, capture_within.
  - intros Hnd Hev. revert st.
    induction Hev as [|ev events Hdom _ IH]; intros st H; [done|].
    cbn [fold_left]. by apply IH, capture_span_ok.
Qed.

(** C4: over the passage "The cat sat. The dog ran." in one text node,
    selecting "The dog ran." appends the span from 13 to 25, which is the
    slice of the passage at these offsets, counted from 0 with the end
    excluded; and whenever the two boundary points lie in one node, both
    offsets are counted from the same running total of the nodes before
    it. *)
Theorem dog_ran_span :
  (onMouseUpCapture passage (select_in passage "The dog ran.") reader0).1
  = mkReader [Evidence.mk "e1" "The dog ran." 13 25] (complete_highlight tasks0)
  /\ slice (textContent passage) 13 25 = "The dog ran."
  /\ (forall before i v after so eo ca,
        i ∉ map fst before ->
        walk (before ++ (i, v) :: after) (mkRange i so i eo ca) 0 (-1) (-1) =
        ((Z.of_nat (String.length (join before)) + Z.of_nat so)%Z,
         (Z.of_nat (String.length (join before)) + Z.of_nat eo)%Z)).
Proof.
  split; [vm_compute; reflexivity|]. split; [vm_compute; reflexivity|].
  intros. by rewrite walk_same_node.
Qed.

Lemma dog_selection_dom :
  let sel := mkSelection [mkRange 1 13 1 25 1] "The dog ran." in
  distinct_nodes passage
  /\ dom_range passage sel /\ dom_text passage sel /\ single_range sel.
Proof.
  split; [apply NoDup_singleton|]. split; [|split; [|reflexivity]].
  - split; [|split].
    + intros v [= ->]%list_elem_of_singleton. simpl. lia.
    + intros v [= ->]%list_elem_of_singleton. simpl. lia.
    + simpl. lia.
  - intros t. vm_compute. by intros [= <-].
Qed.

Lemma selection_atomic_witness :
  (exists s e,
     captured "The dog ran." s e reader0
       (onMouseUpCapture passage
          (Some (mkSelection [mkRange 1 13 1 25 1] "The dog ran.")) reader0).1)
  /\ (onMouseUpCapture passage
        (Some (mkSelection [mkRange 1 0 1 2 1] "Th")) reader0).1 = reader0.
Proof.
  split.
  - destruct (selection_atomic passage
                (mkSelection [mkRange 1 13 1 25 1] "The dog ran.")
                (mkRange 1 13 1 25 1) [] reader0 eq_refl) as (_ & _ & H & _).
    destruct H as (s & e & Hs & He & _ & Hcap).
    + apply dog_selection_dom.
    + apply dog_selection_dom.
    + intros [H|[H|[H|H]]].
      * vm_compute in H. lia.
      * vm_compute in H. discriminate H.
      * apply H. apply list_elem_of_here.
      * apply H. apply list_elem_of_here.
    + exists (Z.of_nat s), (Z.of_nat e). apply Hcap.
      vm_compute in Hs, He. injection Hs as <-. injection He as <-. lia.
  - apply (selection_atomic passage (mkSelection [mkRange 1 0 1 2 1] "Th")
             (mkRange 1 0 1 2 1) [] reader0 eq_refl).
    left. vm_compute. lia.
Defined.

(** C3, as stated, fails: over the passage of one text node, a selection
    of two ranges, a caret at the start and "The dog ran.", has a text of
    twelve characters, lies in the passage and has both boundary nodes of
    its first range matched, and yet the event changes nothing: the first
    range, the one the handler reads, covers no text. *)
Lemma empty_first_range_ignored :
  let sel :=
    mkSelection [mkRange 1 0 1 0 1; mkRange 1 13 1 25 1] "The dog ran." in
  distinct_nodes passage /\ dom_range passage sel /\ dom_text passage sel
  /\ ~ degenerate passage sel (mkRange 1 0 1 0 1)
  /\ (onMouseUpCapture passage (Some sel) reader0).1 = reader0.
Proof.
  split; [apply NoDup_singleton|]. split; [|split; [|split]].
  - split; [|split].
    + intros v [= ->]%list_elem_of_singleton. simpl. lia.
    + intros v [= ->]%list_elem_of_singleton. simpl. lia.
    + simpl. lia.
  - intros t. vm_compute. by intros [= <-].
  - intros [H|[H|[H|H]]].
    + vm_compute in H. lia.
    + vm_compute in H. discriminate H.
    + apply H. apply list_elem_of_here.
    + apply H. apply list_elem_of_here.
  - vm_compute. reflexivity.
Qed.

Lemma evidence_spans_ok_witness :
  Forall (span_ok (textContent passage))
    (evidence (capture_all passage [select_in passage "The dog ran."] reader0)).
Proof.
  apply (evidence_spans_ok passage [select_in passage "The dog ran."] reader0).
  - apply dog_selection_dom.
  - constructor; [|constructor]. cbn [on_event select_in].
    split; [|split]; apply dog_selection_dom.
  - constructor.
Defined.

(** C5, as stated, fails: a selection of two ranges over the passage,
    "The cat" and "The dog ran.", has the text of both, and the handler
    stores that text with the offsets of the first range: the span from 0
    to 7 holds nineteen characters, where the slice of the passage from 0
    to 7 is "The cat". *)
Lemma span_text_not_slice :
  let sel :=
    mkSelection [mkRange 1 0 1 7 1; mkRange 1 13 1 25 1] "The catThe dog ran." in
  distinct_nodes passage /\ dom_range passage sel /\ dom_text passage sel
  /\ evidence (capture_all passage [Some sel] reader0)
     = [Evidence.mk "e1" "The catThe dog ran." 0 7]
  /\ slice (textContent passage) 0 7 = "The cat"
  /\ ~ Forall (span_ok (textContent passage))
         (evidence (capture_all passage [Some sel] reader0)).
Proof.
  split; [apply NoDup_singleton|]. split; [|split; [|split; [|split]]].
  - split; [|split].
    + intros v [= ->]%list_elem_of_singleton. simpl. lia.
    + intros v [= ->]%list_elem_of_singleton. simpl. lia.
    + simpl. lia.
  - intros t. vm_compute. by intros [= <-].
  - vm_compute. reflexivity.
  - vm_compute. reflexivity.
  - intros H. apply Forall_cons in H as [(_ & _ & _ & H) _].
    vm_compute in H. discriminate H.
Qed.

Lemma dog_ran_span_witness :
  walk [(1, "ab"); (2, "cdef"); (3, "gh")] (mkRange 2 1 2 3 0) 0 (-1) (-1)
  = (3%Z, 5%Z).
Proof.
  destruct dog_ran_span as (_ & _ & H).
  apply (H [(1, "ab")] 2 "cdef" [(3, "gh")] 1 3 0).
  intros [= ]%list_elem_of_singleton.
Defined.

(** The handler does nothing without a selection or a range. *)
Example no_selection st :
  onMouseUpCapture passage None st = (st, false)
  /\ onMouseUpCapture passage (Some (mkSelection [] "")) st = (st, false).
Proof. split; reflexivity. Qed.

(** A second capture leaves the highlight task complete. *)
Example second_capture :
  let once := capture_all passage [select_in passage "The dog ran."] reader0 in
  let twice := capture_all passage [select_in passage "The cat sat."] once in
  map Task.done (tasks once) = [Some true; None; None]
  /\ tasks twice = tasks once
  /\ map Evidence.id (evidence twice) = ["e1"; "e2"].
Proof. vm_compute. repeat split. Qed.

(** * Further properties of the code *)

(** ** Similarity and fluency *)

(** X1: [jaccard] does not depend on the order of its two arguments, in
    any arithmetic. *)
Theorem jaccard_symmetric {num : Type} `{!Number num} (a b : string) :
  jaccard (num := num) a b = jaccard (num := num) b a.
Proof.
  unfold jaccard. rewrite (overlap_sets a b), (overlap_sets b a).
  set (A := list_to_set (tokenize a) : gset string).
  set (B := list_to_set (tokenize b) : gset string).
  by rewrite (comm_L (∩) A B), (comm_L (∪) A B).
Qed.

Lemma inter_le_union (A B : gset string) : size (A ∩ B) <= size (A ∪ B).
Proof.
  apply subseteq_size. etrans; [apply intersection_subseteq_l|apply union_subseteq_l].
Qed.

Lemma Q_ratio_le_1 (n m : nat) :
  n <= m -> 0 < m ->
  (0 <= inject_Z (Z.of_nat n) / inject_Z (Z.of_nat m) <= 1)%Q.
Proof.
  intros Hnm Hm.
  assert (0 < inject_Z (Z.of_nat m))%Q as Hp by (unfold Qlt; simpl; lia).
  split.
  - apply Qle_shift_div_l; [done|]. rewrite Qmult_0_l. apply nonneg_count.
  - apply Qle_shift_div_r; [done|]. rewrite Qmult_1_l. by apply mono_count.
Qed.

Lemma Q_ratio_0 (n m : nat) :
  0 < m -> (inject_Z (Z.of_nat n) / inject_Z (Z.of_nat m) == 0)%Q <-> n = 0.
Proof.
  intros Hm. split.
  - intros E. destruct n as [|n]; [done|]. exfalso.
    assert (0 < inject_Z (Z.of_nat (S n)) / inject_Z (Z.of_nat m))%Q as H.
    { apply Qlt_shift_div_l; [unfold Qlt; simpl; lia|].
      rewrite Qmult_0_l. unfold Qlt; simpl; lia. }
    rewrite E in H. by apply Qlt_irrefl in H.
  - intros ->. unfold Qdiv. apply Qmult_0_l.
Qed.

Lemma Q_ratio_1 (n m : nat) :
  0 < m -> (inject_Z (Z.of_nat n) / inject_Z (Z.of_nat m) == 1)%Q <-> n = m.
Proof.
  intros Hm.
  assert (~ inject_Z (Z.of_nat m) == 0)%Q as Hne by (unfold Qeq; simpl; lia).
  split.
  - intros E. apply (Qmult_inj_r _ _ (inject_Z (Z.of_nat m))) in E; [|done].
    unfold Qdiv in E. rewrite <- Qmult_assoc, (Qmult_comm (/ _)), Qmult_inv_r in E by done.
    rewrite Qmult_1_r, Qmult_1_l in E. unfold Qeq in E. simpl in E. lia.
  - intros ->. by apply Qmult_inv_r.
Qed.

(** X2: [jaccard] lies between 0 and 1; it is 0 exactly when the two
    strings share no token, and 1 exactly when they have the same tokens
    and at least one. *)
Theorem jaccard_range (a b : string) :
  let A : gset string := list_to_set (tokenize a) in
  let B : gset string := list_to_set (tokenize b) in
  (0 <= jaccard (num := Q) a b <= 1)%Q
  /\ ((jaccard (num := Q) a b == 0)%Q <-> A ∩ B = ∅)
  /\ ((jaccard (num := Q) a b == 1)%Q <-> A = B /\ A <> ∅).
Proof.
  intros A B. unfold jaccard. rewrite overlap_sets. fold A B.
  cbn [of_nat of_Z div Q_Number].
  pose proof (inter_le_union A B) as Hle.
  assert (0 < Nat.max 1 (size (A ∪ B))) as Hpos by lia.
  split; [apply Q_ratio_le_1; lia|]. split.
  - rewrite Q_ratio_0 by done. split.
    + intros E. by apply leibniz_equiv, size_empty_inv.
    + intros ->. apply size_empty.
  - rewrite Q_ratio_1 by done. split.
    + intros E.
      assert (size (A ∪ B) <= size (A ∩ B)) as Hge by lia.
      assert (A ∩ B ≡ A ∪ B) as Heq.
      { apply set_subseteq_size_equiv; [|done].
        etrans; [apply intersection_subseteq_l|apply union_subseteq_l]. }
      split.
      * apply leibniz_equiv. intros x. split; intros Hx.
        -- assert (x ∈ A ∩ B) as H by (rewrite Heq; apply elem_of_union; by left).
           by apply elem_of_intersection in H as [_ H].
        -- assert (x ∈ A ∩ B) as H by (rewrite Heq; apply elem_of_union; by right).
           by apply elem_of_intersection in H as [H _].
      * intros HA. rewrite HA, (left_absorb_L ∅ (∩)), size_empty in E. lia.
    + intros [-> Hne]. rewrite intersection_idemp_L, union_idemp_L.
      assert (size B <> 0) by (intros E; by apply Hne, leibniz_equiv, size_empty_inv).
      lia.
Qed.

Lemma jaccard_range_witness :
  (jaccard (num := Q) "the cat" "a dog" == 0)%Q.
Proof.
  apply (jaccard_range "the cat" "a dog").
  apply leibniz_equiv, size_empty_inv. vm_compute. reflexivity.
Defined.

Lemma string_forall_app p (s t : string) :
  string_forall p (s ++ t) = (string_forall p s && string_forall p t)%bool.
Proof.
  induction s as [|c s IH]; simpl; [done|]. rewrite IH. by destruct (p c).
Qed.

Lemma split_from_words piece b s :
  string_forall is_word piece = true ->
  string_forall (fun c => (is_word c || is_space c)%bool) s = true ->
  Forall (fun t => string_forall is_word t = true) (split_from piece b s).
Proof.
  revert piece b. induction s as [|c s IH]; intros piece b Hp Hs; simpl in *.
  - by constructor.
  - apply andb_true_iff in Hs as [Hc Hs].
    destruct (is_space c) eqn:Ec.
    + destruct b; [by apply IH|]. constructor; [done|]. by apply IH.
    + apply IH; [|done]. rewrite string_forall_app, Hp. simpl.
      rewrite orb_false_r in Hc. by rewrite Hc.
Qed.

Lemma replace_non_word_chars s :
  string_forall (fun c => (is_word c || is_space c)%bool) (replace_non_word s) = true.
Proof.
  unfold replace_non_word. induction s as [|c s IH]; simpl; [done|].
  rewrite IH, andb_true_r.
  destruct (is_word c || is_space c)%bool eqn:E; [done|reflexivity].
Qed.

(** X3: every token is a non-empty string of lower-case letters and
    digits. *)
Theorem tokens_are_words (s : string) :
  Forall (fun t => t <> "" /\ string_forall is_word t = true) (tokenize s).
Proof.
  unfold tokenize, split_spaces. apply Forall_forall. intros t Ht.
  apply list_elem_of_filter in Ht as [Htruthy Ht]. split.
  - by destruct t.
  - clear Htruthy. revert t Ht. apply Forall_forall, split_from_words; [done|].
    apply replace_non_word_chars.
Qed.

Lemma toLowerCase_char_idem c :
  toLowerCase_char (toLowerCase_char c) = toLowerCase_char c.
Proof. destruct c as [[] [] [] [] [] [] [] []]; reflexivity. Qed.

Lemma toLowerCase_idem s : toLowerCase (toLowerCase s) = toLowerCase s.
Proof.
  unfold toLowerCase. induction s as [|c s IH]; simpl; [done|].
  by rewrite toLowerCase_char_idem, IH.
Qed.

(** X4: the tokens, and with them the similarity, do not depend on the
    case of the letters. *)
Theorem tokenize_ignores_case {num : Type} `{!Number num} (a b : string) :
  tokenize (toLowerCase a) = tokenize a
  /\ jaccard (num := num) (toLowerCase a) b = jaccard (num := num) a b.
Proof.
  assert (tokenize (toLowerCase a) = tokenize a) as E
    by (unfold tokenize; by rewrite toLowerCase_idem).
  split; [done|]. unfold jaccard, overlap. by rewrite E.
Qed.

Lemma string_map_app f (s t : string) :
  string_map f (s ++ t) = string_map f s ++ string_map f t.
Proof. induction s as [|c s IH]; simpl; [done|]. by rewrite IH. Qed.

Lemma filter_split_run s :
  filter (fun t => truthy t = true) (split_from "" true s) =
  filter (fun t => truthy t = true) (split_from "" false s).
Proof.
  destruct s as [|c s]; simpl; [done|].
  destruct (is_space c); [|done]. by rewrite filter_cons_False.
Qed.

Lemma tokens_split_app piece b sep s1 s2 :
  is_space sep = true -> (b = true -> piece = "") ->
  filter (fun t => truthy t = true) (split_from piece b (s1 ++ String sep s2)) =
  (filter (fun t => truthy t = true) (split_from piece b s1)
   ++ filter (fun t => truthy t = true) (split_from "" false s2))%list.
Proof.
  intros Hsep. revert piece b.
  induction s1 as [|c s1 IH]; intros piece b Hb; simpl.
  - rewrite Hsep. destruct b.
    + rewrite Hb by done. rewrite filter_split_run. by rewrite filter_cons_False.
    + rewrite <- filter_split_run. by rewrite <- filter_app.
  - destruct (is_space c).
    + destruct b; [by apply IH|].
      rewrite (filter_cons _ piece), (filter_cons _ piece), IH by done.
      by destruct (decide (truthy piece = true)).
    + by apply IH.
Qed.

(** X5: a character that is no letter and no digit separates tokens: the
    tokens of two strings joined by it are the tokens of the first followed
    by the tokens of the second. *)
Theorem tokenize_joined (a b : string) (sep : ascii) :
  is_word (toLowerCase_char sep) = false ->
  tokenize (a ++ String sep b) = (tokenize a ++ tokenize b)%list.
Proof.
  intros Hsep. unfold tokenize, split_spaces, toLowerCase, replace_non_word.
  rewrite !string_map_app. cbn [string_map]. rewrite Hsep. cbn [orb].
  apply tokens_split_app; [|done].
  by destruct (is_space (toLowerCase_char sep)) eqn:E.
Qed.

Lemma tokenize_joined_witness :
  tokenize ("failed harvest" ++ String "," "scarce supplies")
  = (tokenize "failed harvest" ++ tokenize "scarce supplies")%list.
Proof. apply tokenize_joined. reflexivity. Defined.

(** ** Fluency *)

Lemma fluency_Z (ans : string) :
  let n := Z.of_nat (String.length ans) in
  let m := Z.of_nat (or_one (string_count is_sentence_mark ans)) in
  ((inject_Z n / 200) * (inject_Z m / 2) == (n * m) # 400)%Q.
Proof. intros n m. unfold Qeq, Qdiv, Qmult, Qinv, inject_Z; simpl. lia. Qed.

(** X6: [fluencyProxy] is never negative, is 0 for the empty text, and is
    1 exactly when the length times the number of sentence marks (counted
    as 1 when there is none) reaches 400. *)
Theorem fluency_saturation (ans : string) :
  (0 <= fluencyProxy (num := Q) ans)%Q
  /\ (fluencyProxy (num := Q) "" == 0)%Q
  /\ ((fluencyProxy (num := Q) ans == 1)%Q
      <-> 400 <= String.length ans * Nat.max 1 (string_count is_sentence_mark ans)).
Proof.
  rewrite fluency_formula, <- or_one_max.
  pose proof (fluency_Z ans) as E. cbv zeta in E.
  set (n := String.length ans) in *.
  set (m := or_one (string_count is_sentence_mark ans)) in *.
  split; [|split].
  - apply Q.min_glb; [discriminate|]. rewrite E. unfold Qle; simpl. lia.
  - vm_compute. reflexivity.
  - rewrite Q.min_l_iff, E. unfold Qle; simpl. lia.
Qed.

Lemma fluency_saturation_witness :
  (fluencyProxy (num := Q)
     "One. Two. Three. Four. Five. Six. Seven. Eight. Nine. Ten. Eleven. Twelve."
   == 1)%Q.
Proof.
  apply (fluency_saturation
           "One. Two. Three. Four. Five. Six. Seven. Eight. Nine. Ten. Eleven. Twelve.").
  vm_compute. lia.
Defined.

Example fluency_threshold :
  (fluencyProxy (num := Q) (String.concat "" (repeat "a" 399)) < 1)%Q
  /\ (fluencyProxy (num := Q) (String.concat "" (repeat "a" 400)) == 1)%Q
  /\ (fluencyProxy (num := Q) (String.concat "" (repeat "ab." 67)) == 1)%Q.
Proof. repeat split; vm_compute; reflexivity. Qed.


(** ** The graders *)

Section GraderFacts.
Context {num : Type} `{!Number num}.
Implicit Types (r : StudentRow.t num) (table : list (StudentRow.t num)).

(** X7: grading a graded record again changes nothing, for both graders
    and for their batch forms; and the rule-based grader overwrites all
    that it shares with the model-assisted one, so grading with it last
    gives what grading with it alone gives, up to the feedback. *)
Theorem grading_idempotent r table :
  gradeRow (gradeRow r) = gradeRow r
  /\ gradeRowLLM (gradeRowLLM r) = gradeRowLLM r
  /\ gradeAll (gradeAll table) = gradeAll table
  /\ gradeAllLLM (gradeAllLLM table) = gradeAllLLM table
  /\ gradeRowLLM (gradeRow r) = gradeRowLLM r.
Proof.
  assert (forall r, gradeRow (gradeRow r) = gradeRow r) as Hg by done.
  assert (forall r, gradeRowLLM (gradeRowLLM r) = gradeRowLLM r) as Hl by done.
  split; [apply Hg|]. split; [apply Hl|]. split; [|split].
  - unfold gradeAll. rewrite map_map. apply map_ext. intros. apply Hg.
  - unfold gradeAllLLM. rewrite map_map. apply map_ext. intros. apply Hl.
  - reflexivity.
Qed.

(** The graders never touch the name, the time, the task count, the
    tier or the flag of a record, and the rule-based grader never touches
    its feedback. *)
Theorem grading_frame r :
  (name (gradeRow r) = name r /\ time (gradeRow r) = time r
   /\ StudentRow.tasks (gradeRow r) = StudentRow.tasks r
   /\ quality (gradeRow r) = quality r
   /\ flags (gradeRow r) = flags r /\ flagsDemo (gradeRow r) = flagsDemo r
   /\ feedback (gradeRow r) = feedback r)
  /\ (name (gradeRowLLM r) = name r /\ time (gradeRowLLM r) = time r
   /\ StudentRow.tasks (gradeRowLLM r) = StudentRow.tasks r
   /\ quality (gradeRowLLM r) = quality r
   /\ flags (gradeRowLLM r) = flags r /\ flagsDemo (gradeRowLLM r) = flagsDemo r).
Proof. repeat split. Qed.

Lemma existsb_map {A B} (p : B -> bool) (f : A -> B) (l : list A) :
  existsb p (map f l) = existsb (fun x => p (f x)) l.
Proof. induction l as [|x l IH]; simpl; [done|]. by rewrite IH. Qed.

Lemma map_commute {A} (f g : A -> A) (l : list A) :
  (forall x, f (g x) = g (f x)) -> map f (map g l) = map g (map f l).
Proof. intros H. rewrite !map_map. apply map_ext. exact H. Qed.

(** X8: the model-assisted batch grader commutes with a run of the
    reactive blocks and with the two flag helpers: it reads no flag and
    they read no grade. *)
Theorem llm_grading_commutes p s n label table :
  gradeAllLLM (reconcile p s table) = reconcile p s (gradeAllLLM table)
  /\ gradeAllLLM (seedRealFlag n label table) = seedRealFlag n label (gradeAllLLM table)
  /\ gradeAllLLM (clearRealFlags table) = clearRealFlags (gradeAllLLM table).
Proof.
  assert (forall p s table,
            gradeAllLLM (auto_seed p s table) = auto_seed p s (gradeAllLLM table)) as Hseed.
  { intros p' s' l. unfold auto_seed, gradeAllLLM. rewrite existsb_map.
    change (fun x : StudentRow.t num => truthy_opt (flags (gradeRowLLM x)))
      with (fun r : StudentRow.t num => truthy_opt (flags r)).
    repeat case_match; try done;
      apply map_commute; intros r; cbn; by case_match. }
  assert (forall p s table,
            gradeAllLLM (auto_clear p s table) = auto_clear p s (gradeAllLLM table)) as Hclear.
  { intros p' s' l. unfold auto_clear, gradeAllLLM. rewrite existsb_map.
    change (fun x : StudentRow.t num => truthy_flag (flagsDemo (gradeRowLLM x)))
      with (fun r : StudentRow.t num => truthy_flag (flagsDemo r)).
    repeat case_match; try done;
      apply map_commute; intros r; cbn; by case_match. }
  split; [|split].
  - unfold reconcile. by rewrite Hclear, Hseed.
  - unfold seedRealFlag, gradeAllLLM. apply map_commute. intros r. cbn. by case_match.
  - unfold clearRealFlags, gradeAllLLM. apply map_commute. intros r. cbn. by case_match.
Qed.
End GraderFacts.

(** The rule-based grader reads the flag, so it matters whether the flag
    is seeded before or after the grading: the score of the flagged
    learner is 8 in one order and stays at 18 in the other. *)
Example rule_grading_order :
  map score (gradeAll (num := Q) (reconcile true true rows0))
  = [Some 42%Q; Some 8%Q; Some 35%Q]
  /\ map score (reconcile true true (gradeAll (num := Q) rows0))
     = [Some 42%Q; Some 18%Q; Some 35%Q].
Proof.
  unfold gradeAll, rows0, fresh, reconcile, auto_seed, auto_clear.
  cbn [andb negb orb existsb map is_exemplar name truthy_opt StudentRow.flags
       StudentRow.name StudentRow.flagsDemo truthy_flag String.eqb Ascii.eqb
       Bool.eqb StudentRow.with_flags].
  unfold gradeRow. cbn [StudentRow.quality StudentRow.flags]. rewrite !relevance_of.
  split; vm_compute; reflexivity.
Qed.


Ltac Qle_decide := apply Qle_bool_imp_le; vm_compute; reflexivity.

(** X9: in the rubric breakdown of every learner record the
    completeness, the evidence score, the relevance, the fluency and the
    total lie between 0 and 1.  The level adjustment of the rule-based
    grader is 0; that of the model-assisted grader lies between -0.02 and
    0.05 and is negative for a Strong learner, so it is not a number of
    the unit interval. *)
Theorem rubric_ranges (r : StudentRow.t Q) :
  (exists rb, rubric (gradeRow r) = Some rb
     /\ unit_interval (Rubric.completeness rb) /\ unit_interval (Rubric.evidence rb)
     /\ unit_interval (Rubric.relevance rb) /\ unit_interval (Rubric.fluency rb)
     /\ unit_interval (Rubric.total rb)
     /\ (Rubric.levelAdjust rb == 0)%Q)
  /\ (exists rb, rubric (gradeRowLLM r) = Some rb
     /\ unit_interval (Rubric.completeness rb) /\ unit_interval (Rubric.evidence rb)
     /\ unit_interval (Rubric.relevance rb) /\ unit_interval (Rubric.fluency rb)
     /\ unit_interval (Rubric.total rb)
     /\ (- (2 # 100) <= Rubric.levelAdjust rb <= 5 # 100)%Q
     /\ (quality r = Strong -> (Rubric.levelAdjust rb < 0)%Q)).
Proof.
  split; grade_cases r; eexists; (split; [reflexivity|]);
    cbn [Rubric.completeness Rubric.evidence Rubric.relevance Rubric.fluency
         Rubric.total Rubric.levelAdjust];
    repeat split; try Qle_decide; try discriminate; try reflexivity.
Qed.

Lemma rubric_ranges_witness :
  exists rb, rubric (gradeRowLLM (fresh (num := Q) "Alice W." "15m" "7/7" Strong)) = Some rb
    /\ (Rubric.levelAdjust rb < 0)%Q.
Proof.
  destruct (rubric_ranges (fresh "Alice W." "15m" "7/7" Strong))
    as [_ (rb & E & _ & _ & _ & _ & _ & _ & H)].
  exists rb. split; [exact E|]. apply H. reflexivity.
Defined.

(** X10: the score of a learner record is fixed by its tier and, for the
    rule-based grader, by whether it carries a flag: 42, 35 and 18 points
    for Strong, Medium and Weak, ten less with a flag; 40, 35 and 23 points
    from the model-assisted grader, whose feedback is the lowest of the
    three tiers for every record.  The same holds in exact arithmetic and
    in binary64. *)
Theorem score_table :
  (forall r : StudentRow.t Q,
     score (gradeRow r)
     = Some (of_Z (rule_points (quality r) - if carries_flag r then 10 else 0))
     /\ score (gradeRowLLM r) = Some (of_Z (llm_points (quality r)))
     /\ feedback (gradeRowLLM r) = Some feedback_low)
  /\ (forall r : StudentRow.t float,
     score (gradeRow r)
     = Some (of_Z (rule_points (quality r) - if carries_flag r then 10 else 0))
     /\ score (gradeRowLLM r) = Some (of_Z (llm_points (quality r)))
     /\ feedback (gradeRowLLM r) = Some feedback_low).
Proof.
  split; intros r; grade_cases r; repeat split; vm_compute; reflexivity.
Qed.


(** ** The reactive blocks and the flag helpers *)

Section ControllerFacts.
Context {num : Type}.
Implicit Types (r : StudentRow.t num) (table : list (StudentRow.t num)).

Lemma existsb_false_Forall {A} (p : A -> bool) (l : list A) :
  existsb p l = false <-> Forall (fun x => p x = false) l.
Proof.
  induction l as [|x l IH]; simpl; [by split; [constructor|]|].
  rewrite orb_false_iff, IH, Forall_cons. done.
Qed.

Lemma map_id_on {A} (f : A -> A) (l : list A) :
  Forall (fun x => f x = x) l -> map f l = l.
Proof. induction 1 as [|x l Hx _ IH]; simpl; [done|]. by rewrite Hx, IH. Qed.

(** The second block leaves no demonstration mark behind. *)
Lemma cleared_no_demo table :
  Forall (fun r => truthy_flag (flagsDemo r) = false)
    (map (fun r => if truthy_flag (flagsDemo r)
                   then StudentRow.with_flags None None r else r) table).
Proof.
  induction table as [|r table IH]; simpl; constructor; [|done].
  by destruct (truthy_flag (flagsDemo r)) eqn:E.
Qed.

Lemma auto_clear_idem p s table :
  auto_clear p s (auto_clear p s table) = auto_clear p s table.
Proof.
  unfold auto_clear. destruct (negb p || negb s)%bool; [|done].
  destruct (existsb _ table) eqn:E; [|by rewrite E].
  pose proof (cleared_no_demo table) as H.
  apply existsb_false_Forall in H. by rewrite H.
Qed.

Lemma auto_seed_idem p s table :
  auto_seed p s (auto_seed p s table) = auto_seed p s table.
Proof.
  unfold auto_seed. destruct (p && s)%bool; [|done].
  destruct (existsb _ table) eqn:E; simpl; [by rewrite E|].
  match goal with |- context [existsb ?p (map ?f table)] =>
    destruct (existsb p (map f table)) eqn:E' end; simpl; [done|].
  apply map_id_on. apply existsb_false_Forall in E'.
  apply Forall_forall. intros r' Hr'.
  rewrite Forall_forall in E'. specialize (E' r' Hr').
  apply list_elem_of_In, in_map_iff in Hr' as (r & <- & _).
  destruct (name r =? "Ben R.") eqn:En; [done|]. by rewrite En.
Qed.

(** X11: a second run of the reactive blocks with the same switches
    changes nothing. *)
Theorem reconcile_idempotent p s table :
  reconcile p s (reconcile p s table) = reconcile p s table.
Proof.
  unfold reconcile. destruct (p && s)%bool eqn:E.
  - assert (forall l : list (StudentRow.t num), auto_clear p s l = l) as Hc.
    { intros l. unfold auto_clear.
      by replace (negb p || negb s)%bool with false by (by destruct p, s). }
    rewrite !Hc. apply auto_seed_idem.
  - assert (forall l : list (StudentRow.t num), auto_seed p s l = l) as Hs.
    { intros l. unfold auto_seed. by rewrite E. }
    rewrite !Hs. apply auto_clear_idem.
Qed.

Lemma Forall2_map_r {A} (R : A -> A -> Prop) (f : A -> A) (l : list A) :
  (forall x, R x (f x)) -> Forall2 R l (map f l).
Proof. intros H. induction l; simpl; constructor; auto. Qed.

Lemma Forall2_same table : Forall2 (@same_but_flags num) table table.
Proof. induction table; constructor; [by repeat split|done]. Qed.

Lemma Forall2_same_trans t1 t2 t3 :
  Forall2 (@same_but_flags num) t1 t2 -> Forall2 (@same_but_flags num) t2 t3 ->
  Forall2 (@same_but_flags num) t1 t3.
Proof.
  intros H. revert t3. induction H as [|a b t1 t2 Hab _ IH]; intros t3 H3.
  - by inversion H3.
  - inversion H3 as [|? c ? t3' Hbc H']; subst. constructor; [|by apply IH].
    unfold same_but_flags in *. destruct Hab as (?&?&?&?&?&?&?), Hbc as (?&?&?&?&?&?&?).
    repeat split; congruence.
Qed.

(** X12: a run of the reactive blocks keeps the table row for row, in
    number and in order, and changes of a row nothing but the flag and the
    demonstration mark: no name, no tier and no grade. *)
Theorem reconcile_frame p s table :
  Forall2 (@same_but_flags num) table (reconcile p s table).
Proof.
  unfold reconcile. apply (Forall2_same_trans _ (auto_seed p s table)).
  - unfold auto_seed. repeat case_match; try apply Forall2_same.
    apply Forall2_map_r. intros r. case_match; by repeat split.
  - generalize (auto_seed p s table). intros l.
    unfold auto_clear. repeat case_match; try apply Forall2_same.
    apply Forall2_map_r. intros r. case_match; by repeat split.
Qed.

(** X13: when one of the two switches is off, no row carries a
    demonstration mark after a run of the blocks, whatever the table was
    before. *)
Theorem no_demo_when_off p s table :
  (p && s)%bool = false ->
  Forall (fun r => truthy_flag (flagsDemo r) = false) (reconcile p s table)
  /\ Forall (fun r => forall l, flag_state r <> Some (l, Demo)) (reconcile p s table).
Proof.
  intros H. rewrite reconcile_clears by done.
  pose proof (cleared_no_demo table) as Hn. split; [done|].
  eapply Forall_impl; [exact Hn|]. intros r Hr l. unfold flag_state.
  rewrite Hr. destruct (flags r) as [f|]; [|done]. by destruct (truthy f).
Qed.
End ControllerFacts.

Lemma no_demo_when_off_witness :
  Forall (fun r => truthy_flag (flagsDemo r) = false)
    (reconcile false true (reconcile true true (rows0 (num := Q)))).
Proof. apply no_demo_when_off. reflexivity. Defined.


Section HelperFacts.
Context {num : Type}.
Implicit Types (r : StudentRow.t num) (table : list (StudentRow.t num)).

(** X14: [seedRealFlag] gives every learner of the name the label and
    marks it as no demonstration, whatever the learner carried before, and
    leaves every other learner as it was; with a label that is not empty
    the learner then carries a persisted flag, with the empty label no flag
    at all.  A name that no learner has leaves the table as it was. *)
Theorem seedRealFlag_spec n label table :
  let l := default "Skim (real)" label in
  Forall2
    (fun r r' =>
       if name r =? n
       then flags r' = Some l /\ flagsDemo r' = Some false
            /\ same_but_flags r r'
            /\ flag_state r' = (if truthy l then Some (l, Persisted) else None)
       else r' = r)
    table (seedRealFlag n label table)
  /\ (Forall (fun r => name r <> n) table -> seedRealFlag n label table = table).
Proof.
  intros l. split.
  - unfold seedRealFlag. fold l. apply Forall2_map_r. intros r.
    destruct (name r =? n); [|done].
    split; [done|]. split; [done|]. split; [by repeat split|].
    unfold flag_state. cbn. by destruct (truthy l).
  - intros H. unfold seedRealFlag. apply map_id_on.
    eapply Forall_impl; [exact H|]. intros r Hr.
    by apply String.eqb_neq in Hr as ->.
Qed.

Lemma clearRealFlags_rows table :
  Forall2
    (fun r r' =>
       if truthy_flag (flagsDemo r) then r' = r
       else flags r' = None /\ flagsDemo r' = flagsDemo r /\ same_but_flags r r')
    table (clearRealFlags table).
Proof.
  unfold clearRealFlags. apply Forall2_map_r. intros r.
  destruct (truthy_flag (flagsDemo r)); [done|]. by repeat split.
Qed.

(** X15: [clearRealFlags] leaves a row with a demonstration mark as it
    is and takes the flag off every other row, so that no persisted flag
    is left; a second call changes nothing. *)
Theorem clearRealFlags_spec table :
  Forall2
    (fun r r' =>
       if truthy_flag (flagsDemo r) then r' = r
       else flags r' = None /\ flagsDemo r' = flagsDemo r /\ same_but_flags r r')
    table (clearRealFlags table)
  /\ Forall (fun r => ~ persisted r) (clearRealFlags table)
  /\ clearRealFlags (clearRealFlags table) = clearRealFlags table.
Proof.
  split; [apply clearRealFlags_rows|]. split.
  - unfold clearRealFlags. apply Forall_forall. intros r' Hr'.
    apply list_elem_of_In, in_map_iff in Hr' as (r & <- & _).
    destruct (truthy_flag (flagsDemo r)) eqn:E.
    + intros [_ H]. congruence.
    + intros [H _]. done.
  - unfold clearRealFlags. rewrite map_map. apply map_ext. intros r.
    destruct (truthy_flag (flagsDemo r)) eqn:E; [by rewrite E|].
    cbn. by rewrite E.
Qed.
End HelperFacts.

Lemma seedRealFlag_spec_witness :
  seedRealFlag "Dana K." None (rows0 (num := Q)) = rows0.
Proof.
  apply (seedRealFlag_spec "Dana K." None (rows0 (num := Q))).
  repeat constructor; discriminate.
Defined.

Lemma clearRealFlags_spec_witness :
  Forall (fun r => ~ persisted r)
    (clearRealFlags (seedRealFlag "Alice W." None (rows0 (num := Q)))).
Proof.
  apply (clearRealFlags_spec (seedRealFlag "Alice W." None (rows0 (num := Q)))).
Defined.

Section ClearWhileOn.
Context {num : Type} `{!Number num}.

Lemma cleared_unflagged (table : list (StudentRow.t num)) :
  Forall (fun r => truthy_flag (flagsDemo r) = false) table ->
  unflagged (clearRealFlags table)
  /\ map name (clearRealFlags table) = map name table.
Proof.
  unfold clearRealFlags.
  induction 1 as [|r table Hr _ [IH1 IH2]]; [by split; [constructor|]|].
  cbn [map]. rewrite Hr. split; [by constructor|]. by rewrite IH2.
Qed.

(** X16: when both switches are on and no row has a demonstration mark,
    clearing the real flags empties the table of flags, and the reactive
    blocks that run next give the demonstration flag to the learners named
    "Ben R.". *)
Theorem clear_while_on_seeds (c : Controller num) :
  premium c = true -> skimEnabled c = true ->
  Forall (fun r => truthy_flag (flagsDemo r) = false) (rows c) ->
  map flag_state (rows (table_step c ClearRealFlags)) = map demo_state (rows c).
Proof.
  intros Hp Hs H. cbn [table_step assign_rows rows]. rewrite Hp, Hs.
  destruct (cleared_unflagged (rows c) H) as [Hu Hn].
  rewrite seeded_states by done. by apply demo_state_names.
Qed.
End ClearWhileOn.

Lemma clear_while_on_seeds_witness :
  map flag_state
    (rows (table_step
             (mkController true true (seedRealFlag "Alice W." None (rows0 (num := Q))))
             ClearRealFlags))
  = [None; Some ("Possible skim", Demo); None].
Proof.
  apply (clear_while_on_seeds
           (mkController true true (seedRealFlag "Alice W." None (rows0 (num := Q)))));
    [reflexivity|reflexivity|]. by repeat constructor.
Defined.


(** ** The reader: answers, progress and the evidence list *)

Lemma trim_spaces (s : string) : string_forall is_space s = true -> trim s = "".
Proof.
  unfold trim. induction s as [|c s IH]; simpl; [done|].
  intros [Hc Hs]%andb_true_iff. rewrite Hc. by apply IH.
Qed.

Lemma reader_eta (st : Reader) : mkReader (evidence st) (tasks st) = st.
Proof. by destruct st. Qed.

(** X17: [setAnswer] leaves the evidence alone; an id that no task has
    leaves the tasks alone; otherwise the first task of that id, and no
    other, gets the answer, and is done exactly when more than three
    characters are left of the answer after trimming, so an answer of
    white space or of at most three characters leaves the task not done. *)
Theorem setAnswer_spec (id val : string) (st : Reader) :
  evidence (setAnswer id val st) = evidence st
  /\ (Forall (fun t => Task.id t <> id) (tasks st) -> setAnswer id val st = st)
  /\ (forall before t after,
        tasks st = (before ++ t :: after)%list ->
        Forall (fun u => Task.id u <> id) before -> Task.id t = id ->
        exists t',
          tasks (setAnswer id val st) = (before ++ t' :: after)%list
          /\ Task.id t' = id /\ Task.type t' = Task.type t
          /\ Task.prompt t' = Task.prompt t /\ Task.answer t' = Some val
          /\ (is_done t' = true <-> 3 < String.length (trim val))
          /\ (string_forall is_space val = true \/ String.length val <= 3 ->
              is_done t' = false)).
Proof.
  split; [done|]. split.
  - destruct st as [ev ts]. unfold setAnswer. cbn [evidence tasks].
    intros H. f_equal.
    induction H as [|t ts Ht _ IH]; simpl; [done|].
    rewrite decide_False by done. by rewrite IH.
  - intros before t after E Hb Ht. eexists. split; [|split; [|split; [|split; [|split; [|split]]]]].
    + unfold setAnswer. cbn [tasks]. rewrite E. clear E.
      induction Hb as [|u before Hu _ IH]; simpl.
      * rewrite decide_True by done. reflexivity.
      * rewrite decide_False by done. by rewrite IH.
    + done.
    + done.
    + done.
    + done.
    + unfold is_done. cbn [Task.done]. apply Nat.ltb_lt.
    + intros H. unfold is_done. cbn [Task.done]. apply Nat.ltb_ge.
      destruct H as [H|H]; [rewrite trim_spaces by done; simpl; lia|].
      pose proof (length_trim val). lia.
Qed.

Lemma setAnswer_spec_witness :
  map is_done (tasks (setAnswer "t2" "        " reader0)) = [false; false; false]
  /\ setAnswer "t9" "a long answer" reader0 = reader0.
Proof.
  destruct (setAnswer_spec "t2" "        " reader0) as (_ & _ & H).
  destruct (H [Task.mk "t1" Task.highlight
                 "Highlight the sentence where the author explains why rationing was necessary."
                 None None]
              (Task.mk "t2" Task.short
                 "Summarize paragraph 2 in your own words (1-2 sentences)." None None)
              [Task.mk "t3" Task.vocab "Define the term ration." None None])
    as (t' & E & _ & _ & _ & _ & _ & Hd).
  - reflexivity.
  - repeat constructor. discriminate.
  - reflexivity.
  - split.
    + rewrite E. cbn [map app]. rewrite Hd; [reflexivity|].
      left. reflexivity.
    + apply (setAnswer_spec "t9" "a long answer" reader0).
      repeat constructor; discriminate.
Defined.

Lemma answer_then_complete id val ts :
  Forall (fun t => Task.id t = id -> Task.type t <> Task.highlight) ts ->
  complete_highlight (answer_task id val ts) = answer_task id val (complete_highlight ts).
Proof.
  induction 1 as [|t ts Ht _ IH]; [done|]. cbn [answer_task complete_highlight].
  destruct (decide (Task.id t = id)) as [Hi|Hi]; cbn [complete_highlight].
  - specialize (Ht Hi). rewrite !(decide_False (P := _ = Task.highlight)) by done.
    cbn [answer_task]. by rewrite decide_True.
  - destruct (decide (Task.type t = Task.highlight)) as [Hh|Hh]; cbn [answer_task].
    + by rewrite decide_False.
    + by rewrite decide_False, IH.
Qed.

(** X18: answering a task that is not the highlight task and capturing a
    selection can be done in either order: the two handlers end in the same
    state of the reader. *)
Theorem answer_capture_commute container selection id val st :
  Forall (fun t => Task.id t = id -> Task.type t <> Task.highlight) (tasks st) ->
  (onMouseUpCapture container selection (setAnswer id val st)).1
  = setAnswer id val (onMouseUpCapture container selection st).1.
Proof.
  intros H. unfold onMouseUpCapture.
  repeat case_match; try done. simplify_eq.
  unfold setAnswer. cbn [fst evidence tasks]. f_equal.
  by apply answer_then_complete.
Qed.

Lemma answer_capture_commute_witness :
  (onMouseUpCapture passage (select_in passage "The dog ran.")
     (setAnswer "t2" "They rationed grain." reader0)).1
  = setAnswer "t2" "They rationed grain."
      (onMouseUpCapture passage (select_in passage "The dog ran.") reader0).1.
Proof.
  apply answer_capture_commute.
  repeat constructor; cbn; intros [= ]; discriminate.
Defined.

(** Answering the highlight task itself undoes what a capture did: the
    task is not done any more, and the evidence is still there. *)
Example answer_undoes_highlight :
  let st := capture_all passage [select_in passage "The dog ran."] reader0 in
  map is_done (tasks st) = [true; false; false]
  /\ map is_done (tasks (setAnswer "t1" "" st)) = [false; false; false]
  /\ length (evidence (setAnswer "t1" "" st)) = 1.
Proof. vm_compute. repeat split. Qed.


(** *** Progress *)

Lemma done_count_le (ts : list Task.t) :
  length (filter (fun t => is_done t = true) ts) <= length ts.
Proof. apply length_filter. Qed.

Lemma done_count_all (ts : list Task.t) :
  length (filter (fun t => is_done t = true) ts) = length ts
  <-> Forall (fun t => is_done t = true) ts.
Proof.
  induction ts as [|t ts IH]; simpl; [by split; [constructor|]|].
  pose proof (done_count_le ts).
  destruct (decide (is_done t = true)) as [H1|H1].
  - rewrite filter_cons_True by done. simpl. rewrite Forall_cons.
    split; [intros [= E]; split; [done|by apply IH]|intros [_ E]; f_equal; by apply IH].
  - rewrite filter_cons_False by done. split; [lia|].
    intros [E _]%Forall_cons. done.
Qed.

Lemma done_count_none (ts : list Task.t) :
  length (filter (fun t => is_done t = true) ts) = 0
  <-> Forall (fun t => is_done t = false) ts.
Proof.
  induction ts as [|t ts IH]; simpl; [by split; [constructor|]|].
  destruct (decide (is_done t = true)) as [H1|H1].
  - rewrite filter_cons_True by done. simpl. split; [done|].
    intros [E _]%Forall_cons. congruence.
  - rewrite filter_cons_False by done. rewrite Forall_cons, IH.
    split; [intros E; split; [by destruct (is_done t)|done]|by intros [_ E]].
Qed.

Lemma percent_table_200 : percent_table 200 = true.
Proof. vm_cast_no_check (eq_refl true). Qed.

Lemma percent_table_spec (bound d n : nat) :
  percent_table bound = true -> 0 < n <= bound -> d <= n ->
  exists z,
    F64.to_Z (Math_round ((of_nat d / of_nat n) * of_Z 100)%js) = Some z
    /\ percent_spec d n z.
Proof.
  unfold percent_table. intros H Hn Hd.
  rewrite forallb_forall in H.
  assert (In n (seq 1 bound)) as In_n by (apply in_seq; lia).
  specialize (H n In_n). rewrite forallb_forall in H.
  assert (In d (seq 0 (S n))) as In_d by (apply in_seq; lia).
  specialize (H d In_d).
  destruct (F64.to_Z _) as [z|]; [|done].
  exists z. split; [done|]. by apply bool_decide_eq_true in H.
Qed.

(** X19: in binary64, with at least one task and at most 200,
    [percentDone] is a whole number from 0 to 100, as near to the exact
    percentage as a whole number can be; it is 100 when every task is done
    and 0 exactly when none is; and with fewer than 200 tasks it is 100 only
    when every task is done. *)
Theorem percentDone_range (ts : list Task.t) :
  ts <> [] -> length ts <= 200 ->
  exists z,
    F64.to_Z (percentDone ts) = Some z /\ (0 <= z <= 100)%Z
    /\ (2 * Z.abs (Z.of_nat (length ts) * z
                   - 100 * Z.of_nat (length (filter (fun t => is_done t = true) ts)))
        <= Z.of_nat (length ts))%Z
    /\ (Forall (fun t => is_done t = true) ts -> z = 100%Z)
    /\ (z = 0%Z <-> Forall (fun t => is_done t = false) ts)
    /\ (z = 100%Z -> length ts < 200 -> Forall (fun t => is_done t = true) ts).
Proof.
  intros Hne Hlen.
  assert (0 < length ts) as Hn by (destruct ts; [done|simpl; lia]).
  pose proof (done_count_le ts) as Hle.
  destruct (percent_table_spec 200 _ (length ts) percent_table_200
              (conj Hn Hlen) Hle) as (z & Ez & Hr & Hnear & Hall & Hzero & Hfull).
  exists z. split; [exact Ez|]. split; [done|]. split; [done|].
  split; [|split].
  - intros H. by apply Hall, done_count_all.
  - rewrite Hzero. apply done_count_none.
  - intros E Hlt. by apply done_count_all, Hfull.
Qed.

Lemma percentDone_range_witness :
  exists z, F64.to_Z (percentDone (answer_task "t2" "They rationed grain." tasks0))
            = Some z /\ (0 <= z <= 100)%Z.
Proof.
  destruct (percentDone_range (answer_task "t2" "They rationed grain." tasks0))
    as (z & E & H & _); [discriminate|simpl; lia|].
  exists z. split; [exact E|exact H].
Defined.

(** The progress of the three tasks of the source, and the progress of an
    empty list of tasks, which is not a number. *)
Example percentDone_steps :
  let one := complete_highlight tasks0 in
  let two := answer_task "t2" "They rationed grain." one in
  let three := answer_task "t3" "A fixed share." two in
  map percentDone [tasks0; one; two; three] = [0; 33; 67; 100]%float
  /\ is_nan (percentDone []) = true.
Proof. vm_compute. repeat split. Qed.

(** With 200 tasks of which 199 are done the progress already shows 100. *)
Example percentDone_rounds_up :
  let ts := (repeat (Task.mk "t" Task.short "" (Some true) None) 199
             ++ [Task.mk "t" Task.short "" None None])%list in
  percentDone ts = 100%float.
Proof. vm_compute. reflexivity. Qed.

(** With 40 tasks of which 23 are done the exact percentage is 57.5, which
    rounds to 58; the quotient and the product of binary64 give a little
    less, and the progress shows 57. *)
Example percentDone_rounds_down :
  let ts := (repeat (Task.mk "t" Task.short "" (Some true) None) 23
             ++ repeat (Task.mk "t" Task.short "" None None) 17)%list in
  percentDone ts = 57%float
  /\ Q_round ((23 # 40) * 100) = 58%Q.
Proof. vm_compute. split; reflexivity. Qed.


(** *** The evidence list *)

Lemma to_uint_nonnil (n : nat) : Nat.to_uint n <> Decimal.Nil.
Proof.
  intros E. assert (n = 0) as ->.
  { rewrite <- (DecimalNat.Unsigned.of_to n), E. reflexivity. }
  discriminate E.
Qed.

Lemma decimal_digits_inj (n m : nat) :
  decimal_digits n = decimal_digits m -> n = m.
Proof.
  unfold decimal_digits. intros E.
  apply DecimalNat.Unsigned.to_uint_inj.
  apply (f_equal NilZero.uint_of_string) in E.
  rewrite !NilZero.usu in E by apply to_uint_nonnil. by injection E.
Qed.

(** The ids "e1", "e2", ... of [n] spans. *)
Lemma numbered_snoc n :
  numbered (S n) = (numbered n ++ [("e" ++ decimal_digits (n + 1))%string])%list.
Proof.
  unfold numbered. rewrite seq_S, map_app. simpl.
  by rewrite Nat.add_1_r.
Qed.

Lemma capture_numbered container selection st :
  map Evidence.id (evidence st) = numbered (length (evidence st)) ->
  let st' := (onMouseUpCapture container selection st).1 in
  map Evidence.id (evidence st') = numbered (length (evidence st')).
Proof.
  intros H st'. subst st'.
  destruct (capture_cases container selection st)
    as [->|(sel & range & rest & s & e & _ & _ & _ & _ & _ & _ & ->)]; [done|].
  cbn [evidence]. rewrite map_app, length_app, H. cbn [map length Evidence.id].
  by rewrite Nat.add_1_r, numbered_snoc, Nat.add_1_r.
Qed.

Lemma numbered_NoDup n : NoDup (numbered n).
Proof.
  unfold numbered. apply NoDup_fmap_2_strong.
  - intros k k' _ _ [= E]. by apply decimal_digits_inj.
  - apply NoDup_ListNoDup, seq_NoDup.
Qed.

(** X20: starting with no evidence, after any run of selection events
    the spans carry the ids "e1", "e2", ... in the order of their capture;
    no two spans have the same id. *)
Theorem evidence_ids container events :
  let ev := evidence (capture_all container events reader0) in
  map Evidence.id ev = numbered (length ev)
  /\ NoDup (map Evidence.id ev).
Proof.
  assert (forall st,
            map Evidence.id (evidence st) = numbered (length (evidence st)) ->
            map Evidence.id (evidence (capture_all container events st))
            = numbered (length (evidence (capture_all container events st)))) as H.
  { unfold capture_all. induction events as [|ev events IH]; intros st Hst; [done|].
    cbn [fold_left]. by apply IH, capture_numbered. }
  intros ev. subst ev. split; [by apply H|]. rewrite H by done. apply numbered_NoDup.
Qed.

Lemma capture_extends container selection st :
  exists more,
    evidence (onMouseUpCapture container selection st).1 = (evidence st ++ more)%list
    /\ length more <= 1.
Proof.
  destruct (capture_cases container selection st)
    as [->|(sel & range & rest & s & e & _ & _ & _ & _ & _ & _ & ->)].
  - exists []. split; [by rewrite app_nil_r|simpl; lia].
  - eexists. split; [reflexivity|]. simpl. lia.
Qed.

(** X21: the evidence only grows, and by at most one span for each
    event: the spans that were there stay as they are, in their place. *)
Theorem evidence_append_only container events st :
  exists more,
    evidence (capture_all container events st) = (evidence st ++ more)%list
    /\ length more <= length events.
Proof.
  unfold capture_all. revert st. induction events as [|ev events IH]; intros st.
  - exists []. split; [by rewrite app_nil_r|simpl; lia].
  - cbn [fold_left].
    destruct (capture_extends container ev st) as (m1 & E1 & H1).
    destruct (IH (onMouseUpCapture container ev st).1) as (m2 & E2 & H2).
    exists (m1 ++ m2)%list. rewrite E2, E1, <- app_assoc. split; [done|].
    rewrite length_app. simpl. lia.
Qed.

(** The highlight task is done exactly when there is evidence. *)
Lemma capture_highlight_synced container selection st :
  highlight_synced st -> highlight_synced (onMouseUpCapture container selection st).1.
Proof.
  intros H.
  destruct (capture_cases container selection st)
    as [->|(sel & range & rest & s & e & _ & _ & _ & _ & _ & _ & ->)]; [done|].
  unfold highlight_synced in *. cbn [evidence tasks]. intros t' Ht'.
  destruct (find_highlight (tasks st)) as [t|] eqn:Et.
  - rewrite (complete_highlight_found _ _ Et) in Ht'. injection Ht' as <-.
    split; [intros _; by destruct (evidence st)|done].
  - rewrite complete_highlight_none in Ht' by done. congruence.
Qed.

(** X22: as long as only selections are handled, the highlight task is
    done exactly when the evidence holds at least one span. *)
Theorem highlight_done_iff_evidence container events st :
  highlight_synced st -> highlight_synced (capture_all container events st).
Proof.
  unfold capture_all. revert st. induction events as [|ev events IH]; intros st H; [done|].
  cbn [fold_left]. by apply IH, capture_highlight_synced.
Qed.

Lemma highlight_done_iff_evidence_witness :
  highlight_synced
    (capture_all passage [select_in passage "ab"; select_in passage "The dog ran."] reader0).
Proof.
  apply highlight_done_iff_evidence. intros t [= <-]. split; [discriminate|done].
Defined.

(** X23: the loop stops at the end node: the text nodes after it have no
    part in the two offsets. *)
Theorem walk_stops_at_end before node value after range acc sg eg :
  node = endContainer range ->
  walk (before ++ (node, value) :: after) range acc sg eg
  = walk (before ++ [(node, value)]) range acc sg eg.
Proof.
  intros ->. revert acc sg. induction before as [|[i v] before IH]; intros acc sg.
  - cbn [app walk]. by destruct (decide (endContainer range = endContainer range)).
  - cbn [app walk]. destruct (decide (i = endContainer range)); [done|]. apply IH.
Qed.

Lemma walk_stops_at_end_witness :
  walk [(1, "ab"); (2, "cdef"); (3, "gh")] (mkRange 1 1 2 2 0) 0 (-1) (-1)
  = walk [(1, "ab"); (2, "cdef")] (mkRange 1 1 2 2 0) 0 (-1) (-1).
Proof.
  apply (walk_stops_at_end [(1, "ab")] 2 "cdef" [(3, "gh")]). reflexivity.
Defined.

Lemma walk_one_node nodes range acc :
  startContainer range = endContainer range ->
  let '(s, e) := walk nodes range acc (-1) (-1) in
  (s = (-1)%Z /\ e = (-1)%Z)
  \/ (e - s = Z.of_nat (endOffset range) - Z.of_nat (startOffset range))%Z.
Proof.
  intros E. revert acc. induction nodes as [|[i v] nodes IH]; intros acc.
  - by left.
  - cbn [walk]. rewrite <- E.
    destruct (decide (i = startContainer range)); [right; lia|].
    apply IH.
Qed.

(** X24: a selection whose two boundary points lie in one node, the end
    not after the start, appends nothing, whatever its text is. *)
Theorem backward_selection_ignored container sel range rest st :
  ranges sel = range :: rest ->
  startContainer range = endContainer range ->
  endOffset range <= startOffset range ->
  (onMouseUpCapture container (Some sel) st).1 = st.
Proof.
  intros Er E Hle.
  destruct (capture_cases container (Some sel) st)
    as [H|(sel' & range' & rest' & s & e & [= <-] & Er' & _ & _ & Hw & Hse & _)]; [done|].
  rewrite Er in Er'. injection Er' as <- <-.
  pose proof (walk_one_node (walker container) range 0%Z E) as H.
  rewrite Hw in H. lia.
Qed.

Lemma backward_selection_ignored_witness :
  (onMouseUpCapture passage
     (Some (mkSelection [mkRange 1 25 1 13 1] "The dog ran.")) reader0).1 = reader0.
Proof.
  apply (backward_selection_ignored passage _ (mkRange 1 25 1 13 1) []);
    [reflexivity|reflexivity|simpl; lia].
Defined.

(** A selection that runs over two text nodes: the span starts in the
    first node and ends in the second. *)
Example span_over_two_nodes :
  let page := Element 0 [Element 1 [Text 2 "The cat sat. "]; Text 3 "The dog ran."] in
  let sel := mkSelection [mkRange 2 8 3 7 0] "sat. The dog" in
  (distinct_nodes page /\ dom_range page sel /\ dom_text page sel)
  /\ evidence (onMouseUpCapture page (Some sel) reader0).1
     = [Evidence.mk "e1" "sat. The dog" 8 20]
  /\ slice (textContent page) 8 20 = "sat. The dog".
Proof.
  split; [|split; vm_compute; reflexivity].
  split; [unfold distinct_nodes; cbn; apply NoDup_cons; split;
          [|apply NoDup_singleton];
          intros H%list_elem_of_singleton; discriminate|].
  split; [|intros t; vm_compute; by intros [= <-]].
  unfold dom_range. cbn [ranges]. split; [|split; [|discriminate]].
  - intros v Hv. cbn in Hv. apply elem_of_cons in Hv as [[= ->]|Hv]; [simpl; lia|].
    apply list_elem_of_singleton in Hv. discriminate.
  - intros v Hv. cbn in Hv. apply elem_of_cons in Hv as [[= ]|Hv].
    apply list_elem_of_singleton in Hv as [= ->]. simpl. lia.
Qed.
